(** * Territory-control game: a shallow embedding of the game engine

    The development follows the three source files of the game:
    [Territory.ts] (a board cell), [GameState.ts] (the [GameState] projection
    and the [Game] engine) and [AIPlayer.ts] (the automated side).

    Modelling conventions.
    - A JavaScript [number] holding a unit count is an integer in every
      state the engine builds (setup stores 0 or 3, every later store is a
      sum, a difference or a [Math.floor]); unit counts are [Z].
    - Fractional quantities (the random factor of an attack, the losses
      factors, the confidence of an automated action) are read twice. The
      routines are first given on exact rationals [Q], with [Math.floor]
      as [Qfloor]: this reading serves the properties that rounding does
      not touch. Module [Binary64] then gives the routines whose outcome
      depends on rounding, the attacks and the ranking of the automated
      side's candidates, on IEEE binary64, as the source computes them;
      [garrison_rounding] and [ranking_rounding] show where the two
      readings part.
    - [Math.random()] is a sequence [random], of rationals in the first
      reading and of doubles in the second; the engine keeps the number
      of draws made so far.
    - A [Territory] object is a cell of the list [territories]; a reference
      to it is its index, so two references alias exactly when the indices
      are equal.
    - [onMessage] is a log of [Message] values, one constructor per
      message text of the source.
    - The rendering scene, the camera, the [onStateChange] notification
      and the pacing delays carry no game state and are left out. *)

From Stdlib Require Import ZArith QArith Qround Reals Lia Psatz SpecFloat.
From Stdlib Require Import String Ascii DecimalString.
From Stdlib Require Import List Sorted Permutation.
From stdpp Require Import base list.
Import ListNotations.

Local Open Scope Z_scope.

(** ** Territory.ts *)

Inductive Owner := player | ai | neutral.

Definition Owner_eqb (a b : Owner) : bool :=
  match a, b with
  | player, player | ai, ai | neutral, neutral => true
  | _, _ => false
  end.

Record Territory := mkTerritory {
  name : string;
  posX : Z;
  posZ : Z;
  owner : Owner;
  units : Z;
  selected : bool
}.

(** [new Territory(x, z, scene, name)]: neutral, no unit, not selected. *)
Definition newTerritory (x z : Z) (n : string) : Territory :=
  mkTerritory n x z neutral 0 false.

Definition setOwner (o : Owner) (t : Territory) : Territory :=
  mkTerritory (name t) (posX t) (posZ t) o (units t) (selected t).

(** [this.units = Math.max(0, units)] *)
Definition setUnits (n : Z) (t : Territory) : Territory :=
  mkTerritory (name t) (posX t) (posZ t) (owner t) (Z.max 0 n) (selected t).

Definition setSelected (b : bool) (t : Territory) : Territory :=
  mkTerritory (name t) (posX t) (posZ t) (owner t) (units t) b.

(** ** The territory store

    Getters through a reference; a dangling reference (none exists in the
    source) reads as a fresh neutral cell. *)

Abbreviation Ref := nat (only parsing).

Definition getOwner (ts : list Territory) (r : Ref) : Owner :=
  from_option owner neutral (ts !! r).

Definition getUnits (ts : list Territory) (r : Ref) : Z :=
  from_option units 0 (ts !! r).

Definition getName (ts : list Territory) (r : Ref) : string :=
  from_option name EmptyString (ts !! r).

Definition getPosition (ts : list Territory) (r : Ref) : Z * Z :=
  from_option (fun t => (posX t, posZ t)) (0, 0) (ts !! r).

(** [THREE.Vector3.distanceTo] on two positions of height 0: the square
    root of [distanceToSquared]. *)
Definition distanceToSquared (p q : Z * Z) : Z :=
  (fst p - fst q) * (fst p - fst q) + (snd p - snd q) * (snd p - snd q).

Definition distanceTo (p q : Z * Z) : R :=
  sqrt (IZR (distanceToSquared p q)).

(** [distance < 7], decided on the squares (see [within7_distanceTo]). *)
Definition within7 (p q : Z * Z) : bool :=
  distanceToSquared p q <? 49.

(** ** GameState.ts: the [GameState] projection *)

Inductive Side := sidePlayer | sideAI.

Record GameState := mkGameState {
  gameStarted : bool;
  gameOver : bool;
  winner : option Side;
  currentTurn : Side;
  playerUnits : Z;
  aiUnits : Z;
  playerTerritories : Z;
  aiTerritories : Z
}.

Definition newGameState : GameState :=
  mkGameState false false None sidePlayer 0 0 0 0.

(** ** Messages handed to [onMessage] *)

Inductive Message :=
| MsgSelected (n : string) (u : Z)
| MsgDeselected
| MsgNotAdjacent
| MsgTransferred (moved : Z) (src dst : string)
| MsgNotEnoughToTransfer
| MsgNotEnoughToAttack
| MsgAttacks (att : string) (attackStrength : Z) (def : string) (defenseStrength : Z)
| MsgAttackSuccessful (def : string) (remaining : Z)
| MsgAttackFailed (losses : Z)
| MsgYouWin
| MsgAIWins
| MsgGameStarted
| MsgTurnEnded
| MsgAIThinking
| MsgAIStrategy (s : string)
| MsgAIBasicStrategy
| MsgAIAttacks (att : string) (attackStrength : Z) (def : string) (defenseStrength : Z)
| MsgAICaptured (def : string) (remaining : Z)
| MsgAIAttackFailed (losses : Z)
| MsgAITransferred (moved : Z) (src dst : string).

(** ** GameState.ts: the [Game] engine *)

Record Game := mkGame {
  territories : list Territory;
  selectedTerritory : option Ref;
  gameState : GameState;
  messages : list Message;
  randomCalls : nat
}.

Definition setTerritories (ts : list Territory) (g : Game) : Game :=
  mkGame ts (selectedTerritory g) (gameState g) (messages g) (randomCalls g).

Definition setSelection (s : option Ref) (g : Game) : Game :=
  mkGame (territories g) s (gameState g) (messages g) (randomCalls g).

Definition setGameState (s : GameState) (g : Game) : Game :=
  mkGame (territories g) (selectedTerritory g) s (messages g) (randomCalls g).

Definition onMessage (m : Message) (g : Game) : Game :=
  mkGame (territories g) (selectedTerritory g) (gameState g)
         (messages g ++ [m]) (randomCalls g).

Definition drawn (k : nat) (g : Game) : Game :=
  mkGame (territories g) (selectedTerritory g) (gameState g) (messages g)
         (randomCalls g + k)%nat.

(** A method call on the territory behind a reference. *)
Definition onTerritory (r : Ref) (f : Territory -> Territory) (g : Game) : Game :=
  setTerritories (alter f r (territories g)) g.

Definition setCurrentTurn (s : Side) (g : Game) : Game :=
  let st := gameState g in
  setGameState (mkGameState (gameStarted st) (gameOver st) (winner st) s
                  (playerUnits st) (aiUnits st)
                  (playerTerritories st) (aiTerritories st)) g.

(** *** Board setup: [createGameBoard] *)

Definition gridSize : Z := 5.
Definition spacing : Z := 5.
Definition offset : Z := (gridSize - 1) * spacing / 2.

Definition showZ (n : Z) : string := NilZero.string_of_int (Z.to_int n).

(** [`Territory (${x},${z})`] *)
Definition territoryName (x z : Z) : string :=
  ("Territory (" ++ showZ x ++ "," ++ showZ z ++ ")")%string.

(** One iteration of the inner loop: nothing is pushed for the four
    corners. *)
Definition boardCell (x z : Z) : list Territory :=
  if ((x =? 0) && (z =? 0)) || ((x =? gridSize - 1) && (z =? gridSize - 1))
     || ((x =? 0) && (z =? gridSize - 1)) || ((x =? gridSize - 1) && (z =? 0))
  then []
  else
    let territory :=
      newTerritory (x * spacing - offset) (z * spacing - offset) (territoryName x z) in
    [ if (x <? 2) && (z <? 2) then setUnits 3 (setOwner player territory)
      else if (gridSize - 3 <? x) && (gridSize - 3 <? z)
           then setUnits 3 (setOwner ai territory)
           else territory ].

Definition gridRange : list Z := map Z.of_nat (seq 0 (Z.to_nat gridSize)).

Definition createGameBoard : list Territory :=
  flat_map (fun x => flat_map (fun z => boardCell x z) gridRange) gridRange.

(** *** [updateGameState] *)

(** One iteration of the counting loop; the accumulator is
    (playerUnits, aiUnits, playerTerritories, aiTerritories). *)
Definition countStep (c : Z * Z * Z * Z) (t : Territory) : Z * Z * Z * Z :=
  let '(pu, au, pt, at_) := c in
  match owner t with
  | player => (pu + units t, au, pt + 1, at_)
  | ai => (pu, au + units t, pt, at_ + 1)
  | neutral => c
  end.

Definition countBoard (ts : list Territory) : Z * Z * Z * Z :=
  fold_left countStep ts (0, 0, 0, 0).

Definition updateGameState (g : Game) : Game :=
  let '(pu, au, pt, at_) := countBoard (territories g) in
  let st := gameState g in
  if at_ =? 0 then
    onMessage MsgYouWin
      (setGameState (mkGameState (gameStarted st) true (Some sidePlayer)
                       (currentTurn st) pu au pt at_) g)
  else if pt =? 0 then
    onMessage MsgAIWins
      (setGameState (mkGameState (gameStarted st) true (Some sideAI)
                       (currentTurn st) pu au pt at_) g)
  else
    setGameState (mkGameState (gameStarted st) (gameOver st) (winner st)
                    (currentTurn st) pu au pt at_) g.

(** The constructor of [Game], as far as the game state goes. *)
Definition newGame : Game :=
  updateGameState (mkGame createGameBoard None newGameState [] 0).

(** *** [isAdjacent] *)

Definition isAdjacent (ts : list Territory) (territory1 territory2 : Ref) : bool :=
  within7 (getPosition ts territory1) (getPosition ts territory2).

(** *** [transferUnits] *)

Definition transferUnits (from to : Ref) (g : Game) : Game :=
  let unitsToTransfer := Qfloor (inject_Z (getUnits (territories g) from) / 2) in
  if 0 <? unitsToTransfer then
    let g1 := onTerritory from
                (setUnits (getUnits (territories g) from - unitsToTransfer)) g in
    let g2 := onTerritory to
                (setUnits (getUnits (territories g1) to + unitsToTransfer)) g1 in
    onMessage (MsgTransferred unitsToTransfer
                 (getName (territories g) from) (getName (territories g) to)) g2
  else
    onMessage MsgNotEnoughToTransfer g.

Section WithRandom.

(** The values returned by the successive calls of [Math.random()]. *)
Variable random : nat -> Q.

(** *** [attackTerritory]

    The strengths, the garrison and the losses are read on exact rationals
    here, and on doubles in [Binary64.attackTerritory]. *)

Definition attackTerritory (attacker defender : Ref) (g : Game) : Game :=
  let attackerUnits := getUnits (territories g) attacker in
  let defenderUnits := getUnits (territories g) defender in
  if attackerUnits <=? 1 then
    onMessage MsgNotEnoughToAttack g
  else
    let attackStrength :=
      Qfloor (inject_Z (attackerUnits - 1) * (0.8 + random (randomCalls g) * 0.4)) in
    let defenseStrength :=
      Qfloor (inject_Z defenderUnits * (0.8 + random (S (randomCalls g)) * 0.4)) in
    let g0 := onMessage (MsgAttacks (getName (territories g) attacker) attackStrength
                           (getName (territories g) defender) defenseStrength)
                (drawn 2 g) in
    if defenseStrength <? attackStrength then
      let remainingUnits :=
        Qfloor (inject_Z (attackerUnits - 1)
                * (inject_Z attackStrength / inject_Z (attackStrength + defenseStrength))) in
      let g1 := onTerritory attacker (setUnits 1) g0 in
      let g2 := onTerritory defender (setOwner player) g1 in
      let g3 := onTerritory defender (setUnits remainingUnits) g2 in
      onMessage (MsgAttackSuccessful (getName (territories g) defender) remainingUnits) g3
    else
      let attackerLosses := Qfloor (inject_Z attackerUnits * 0.5) in
      let g1 := onTerritory attacker
                  (setUnits (Z.max 1 (attackerUnits - attackerLosses))) g0 in
      let defenderLosses := Qfloor (inject_Z defenderUnits * 0.3) in
      let g2 := onTerritory defender
                  (setUnits (Z.max 1 (defenderUnits - defenderLosses))) g1 in
      onMessage (MsgAttackFailed attackerLosses) g2.

(** *** [handleTerritoryClick] *)

Definition handleTerritoryClick (territory : Ref) (g : Game) : Game :=
  match currentTurn (gameState g) with
  | sideAI => g
  | sidePlayer =>
    match selectedTerritory g with
    | None =>
      if Owner_eqb (getOwner (territories g) territory) player then
        onMessage (MsgSelected (getName (territories g) territory)
                     (getUnits (territories g) territory))
          (onTerritory territory (setSelected true)
             (setSelection (Some territory) g))
      else g
    | Some sel =>
      if Nat.eqb sel territory then
        onMessage MsgDeselected
          (setSelection None (onTerritory sel (setSelected false) g))
      else if isAdjacent (territories g) sel territory then
        let g1 :=
          if Owner_eqb (getOwner (territories g) territory) player
          then transferUnits sel territory g
          else attackTerritory sel territory g in
        updateGameState
          (setSelection None (onTerritory sel (setSelected false) g1))
      else
        onMessage MsgNotAdjacent g
    end
  end.

(** *** [start] *)

Definition start (g : Game) : Game :=
  let st := gameState g in
  onMessage MsgGameStarted
    (updateGameState
       (setGameState (mkGameState true (gameOver st) (winner st) sidePlayer
                        (playerUnits st) (aiUnits st)
                        (playerTerritories st) (aiTerritories st)) g)).

End WithRandom.

(** ** AIPlayer.ts *)

Inductive ActionType := attack | transfer.

Record AIAction := mkAIAction {
  type : ActionType;
  from : Ref;
  to : Ref;
  confidence : Q
}.

(** *** Strings: [toLowerCase] and [includes]

    A string is a text whose UTF-16 code units are all below 256, one
    character per code unit. On these [String.prototype.toLowerCase] maps
    the letters A to Z, and the letters from U+00C0 to U+00DE but U+00D7,
    to the code unit 32 above, and leaves the others as they are. *)

Definition lowerCodeUnit (c : ascii) : ascii :=
  let n := nat_of_ascii c in
  if ((65 <=? n)%nat && (n <=? 90)%nat)
     || ((192 <=? n)%nat && (n <=? 222)%nat && negb (n =? 215)%nat)
  then ascii_of_nat (n + 32) else c.

Fixpoint toLowerCase (s : string) : string :=
  match s with
  | EmptyString => EmptyString
  | String c s' => String (lowerCodeUnit c) (toLowerCase s')
  end.

Definition includes (s sub : string) : bool :=
  match index 0 sub s with
  | Some _ => true
  | None => false
  end.

(** *** [findAdjacentTerritories] *)

Definition allRefs (ts : list Territory) : list Ref := seq 0 (length ts).

Definition findAdjacentTerritories (ts : list Territory) (territory : Ref) : list Ref :=
  List.filter
    (fun t =>
       if Nat.eqb t territory then false
       else within7 (getPosition ts territory) (getPosition ts t))
    (allRefs ts).

(** [adjacentToTarget.filter(t => t.getOwner() === 'player').length] *)
Definition adjacentPlayerTerritories (ts : list Territory) (target : Ref) : Z :=
  Z.of_nat (length (List.filter (fun t => Owner_eqb (getOwner ts t) player)
                      (findAdjacentTerritories ts target))).

(** *** [evaluateAttack] and [evaluateTransfer]

    The confidences are read on exact rationals here, and on doubles in
    [Binary64.evaluateAttack] and [Binary64.evaluateTransfer]. *)

Definition evaluateAttack (ts : list Territory) (src dst : Ref) (aiStrategy : string) : Q :=
  let attackerUnits := getUnits ts src in
  let defenderUnits := getUnits ts dst in
  let hint := toLowerCase aiStrategy in
  let c0 := (inject_Z (attackerUnits - 1) / inject_Z (Z.max 1 defenderUnits))%Q in
  let c1 := if Owner_eqb (getOwner ts dst) player then (c0 * 1.5)%Q else c0 in
  let c2 := (c1 + inject_Z (adjacentPlayerTerritories ts dst) * 0.2)%Q in
  let c3 := if includes hint (toLowerCase (getName ts dst)) then (c2 * 1.5)%Q else c2 in
  let c4 := if includes hint "attack" && includes hint "player" then (c3 * 1.2)%Q else c3 in
  if includes hint "defensive" || includes hint "defend" then (c4 * 0.8)%Q else c4.

Definition evaluateTransfer (ts : list Territory) (src dst : Ref) (aiStrategy : string) : Q :=
  let fromUnits := getUnits ts src in
  let toUnits := getUnits ts dst in
  let hint := toLowerCase aiStrategy in
  let c0 := (inject_Z (fromUnits - toUnits) / inject_Z (Z.max 1 (fromUnits + toUnits)))%Q in
  if fromUnits <=? toUnits + 2 then 0%Q
  else
    let c1 := (c0 + inject_Z (adjacentPlayerTerritories ts dst) * 0.3)%Q in
    let c2 := if includes hint (toLowerCase (getName ts dst)) then (c1 * 1.5)%Q else c1 in
    if includes hint "reinforce" || includes hint "strengthen" then (c2 * 1.3)%Q else c2.

(** *** Candidate actions, ranking and selection

    The ranking compares exact rationals here and doubles in
    [Binary64.sortActions]; [ranking_rounding] shows a board on which the
    two differ. *)

(** The body of the loop over the automated side's territories. *)
Definition actionsFrom (ts : list Territory) (aiStrategy : string) (territory : Ref)
  : list AIAction :=
  if getUnits ts territory <=? 1 then []
  else
    map (fun adjacent =>
           if Owner_eqb (getOwner ts adjacent) ai
           then mkAIAction transfer territory adjacent
                  (evaluateTransfer ts territory adjacent aiStrategy)
           else mkAIAction attack territory adjacent
                  (evaluateAttack ts territory adjacent aiStrategy))
        (findAdjacentTerritories ts territory).

Definition ownedBy (o : Owner) (ts : list Territory) : list Ref :=
  List.filter (fun t => Owner_eqb (getOwner ts t) o) (allRefs ts).

Definition possibleActions (ts : list Territory) (aiStrategy : string) : list AIAction :=
  flat_map (actionsFrom ts aiStrategy) (ownedBy ai ts).

Definition Qltb (x y : Q) : bool := negb (Qle_bool y x).

(** [possibleActions.sort((a, b) => b.confidence - a.confidence)].
    [Array.prototype.sort] is stable and the comparator is a consistent
    order, which fixes the result; it is computed here by insertion. The
    comparator is positive on [(a, b)], placing [a] after [b], exactly when
    [confidence a < confidence b]. *)
Fixpoint insertAction (a : AIAction) (l : list AIAction) : list AIAction :=
  match l with
  | [] => [a]
  | b :: l' =>
    if Qltb (confidence a) (confidence b) then b :: insertAction a l'
    else a :: b :: l'
  end.

Definition sortActions (l : list AIAction) : list AIAction :=
  fold_right insertAction [] l.

(** [possibleActions.slice(0, 3)] after the sort. *)
Definition actionsToExecute (ts : list Territory) (aiStrategy : string) : list AIAction :=
  take 3 (sortActions (possibleActions ts aiStrategy)).

(** *** [executeTransfer] *)

Definition executeTransfer (src dst : Ref) (g : Game) : Game :=
  let unitsToTransfer := Qfloor (inject_Z (getUnits (territories g) src - 1) / 2) in
  if 0 <? unitsToTransfer then
    let g1 := onTerritory src
                (setUnits (getUnits (territories g) src - unitsToTransfer)) g in
    let g2 := onTerritory dst
                (setUnits (getUnits (territories g1) dst + unitsToTransfer)) g1 in
    onMessage (MsgAITransferred unitsToTransfer
                 (getName (territories g) src) (getName (territories g) dst)) g2
  else g.

(** The [try]/[catch] around the advisor call: the strategy text is the
    advisor's, or stays empty when the call rejects; one message either
    way. *)
Definition strategyText (advice : option string) : string :=
  match advice with
  | Some s => s
  | None => EmptyString
  end.

Definition announceStrategy (advice : option string) (g : Game) : Game :=
  match advice with
  | Some s => onMessage (MsgAIStrategy s) g
  | None => onMessage MsgAIBasicStrategy g
  end.

Section AIPlayer.

Variable random : nat -> Q.

(** *** [executeAttack]

    As for [attackTerritory], the arithmetic is read on exact rationals
    here, and on doubles in [Binary64.executeAttack]. *)

Definition executeAttack (src dst : Ref) (g : Game) : Game :=
  let attackerUnits := getUnits (territories g) src in
  let defenderUnits := getUnits (territories g) dst in
  if attackerUnits <=? 1 then g
  else
    let attackStrength :=
      Qfloor (inject_Z (attackerUnits - 1) * (0.8 + random (randomCalls g) * 0.4)) in
    let defenseStrength :=
      Qfloor (inject_Z defenderUnits * (0.8 + random (S (randomCalls g)) * 0.4)) in
    let g0 := onMessage (MsgAIAttacks (getName (territories g) src) attackStrength
                           (getName (territories g) dst) defenseStrength)
                (drawn 2 g) in
    if defenseStrength <? attackStrength then
      let remainingUnits :=
        Qfloor (inject_Z (attackerUnits - 1)
                * (inject_Z attackStrength / inject_Z (attackStrength + defenseStrength))) in
      let g1 := onTerritory src (setUnits 1) g0 in
      let g2 := onTerritory dst (setOwner ai) g1 in
      let g3 := onTerritory dst (setUnits remainingUnits) g2 in
      onMessage (MsgAICaptured (getName (territories g) dst) remainingUnits) g3
    else
      let attackerLosses := Qfloor (inject_Z attackerUnits * 0.5) in
      let g1 := onTerritory src
                  (setUnits (Z.max 1 (attackerUnits - attackerLosses))) g0 in
      let defenderLosses := Qfloor (inject_Z defenderUnits * 0.3) in
      let g2 := onTerritory dst
                  (setUnits (Z.max 1 (defenderUnits - defenderLosses))) g1 in
      onMessage (MsgAIAttackFailed attackerLosses) g2.

(** *** [executeTurn]

    [advice] is the outcome of [await this.getAIStrategy()], the call to
    the external advisor: [Some s] when it resolves with the text [s],
    [None] when it rejects. *)

Definition executeAction (action : AIAction) (g : Game) : Game :=
  match type action with
  | attack => executeAttack (from action) (to action) g
  | transfer => executeTransfer (from action) (to action) g
  end.

Definition executeActions (actions : list AIAction) (g : Game) : Game :=
  fold_left (fun g' action => executeAction action g') actions g.

Definition executeTurn (advice : option string) (g : Game) : Game :=
  if Nat.eqb (length (ownedBy ai (territories g))) 0 then g
  else
    let aiStrategy := strategyText advice in
    let g1 := announceStrategy advice g in
    executeActions (actionsToExecute (territories g1) aiStrategy) g1.

(** *** [endPlayerTurn] (of [Game]) *)

(** [for (const territory of this.territories) if (territory.getOwner() === o)
    territory.setUnits(territory.getUnits() + 1)] *)
Definition reinforce (o : Owner) (ts : list Territory) : list Territory :=
  map (fun territory =>
         if Owner_eqb (owner territory) o
         then setUnits (units territory + 1) territory
         else territory) ts.

Definition endPlayerTurn (advice : option string) (g : Game) : Game :=
  if negb (gameStarted (gameState g)) || gameOver (gameState g) then g
  else
    let g1 := setTerritories (reinforce player (territories g)) g in
    let g2 := updateGameState (onMessage MsgTurnEnded g1) in
    let g3 := onMessage MsgAIThinking (setCurrentTurn sideAI g2) in
    let g4 := executeTurn advice g3 in
    let g5 := setTerritories (reinforce ai (territories g4)) g4 in
    updateGameState (setCurrentTurn sidePlayer g5).

End AIPlayer.

(** * Reference definitions of the specification and predicates *)

(** A unit count stored as it is, without the clamp of [setUnits]. *)
Definition withUnits (n : Z) (t : Territory) : Territory :=
  mkTerritory (name t) (posX t) (posZ t) (owner t) n (selected t).

Inductive AttackOutcome :=
| InsufficientUnits
| Resolved (attacker defender : Territory).

(** [resolveAttack] of the specification's combat resolver, written from
    its formulas; [side] is the owner given to a captured territory. *)
Definition resolveAttack (side : Owner) (attacker defender : Territory) (r1 r2 : Q)
  : AttackOutcome :=
  if units attacker <=? 1 then InsufficientUnits
  else
    let attackStrength := Qfloor (inject_Z (units attacker - 1) * (0.8 + r1 * 0.4)) in
    let defenseStrength := Qfloor (inject_Z (units defender) * (0.8 + r2 * 0.4)) in
    if attackStrength >? defenseStrength then
      let remaining :=
        Qfloor (inject_Z (units attacker - 1) * inject_Z attackStrength
                / inject_Z (attackStrength + defenseStrength)) in
      Resolved (withUnits 1 attacker) (withUnits remaining (setOwner side defender))
    else
      let attackerLosses := Qfloor (inject_Z (units attacker) * 0.5) in
      let defenderLosses := Qfloor (inject_Z (units defender) * 0.3) in
      Resolved (withUnits (Z.max 1 (units attacker - attackerLosses)) attacker)
               (withUnits (Z.max 1 (units defender - defenderLosses)) defender).

(** The specification's wording: the captured territory takes the owner of
    the attacking territory. *)
Definition resolveAttack_spec (attacker defender : Territory) (r1 r2 : Q)
  : AttackOutcome :=
  resolveAttack (owner attacker) attacker defender r1 r2.

(** The selection protocol of the specification: from the current
    selection and the clicked territory, the new selection and the action
    to submit, if any. *)
Inductive Submission :=
| SubmitTransfer (src dst : Ref)
| SubmitAttack (src dst : Ref).

Definition selectionProtocol (ts : list Territory) (selection : option Ref) (clicked : Ref)
  : option Ref * option Submission :=
  match selection with
  | None =>
    if Owner_eqb (getOwner ts clicked) player then (Some clicked, None)
    else (None, None)
  | Some sel =>
    if Nat.eqb clicked sel then (None, None)
    else if negb (isAdjacent ts sel clicked) then (Some sel, None)
    else if Owner_eqb (getOwner ts clicked) player
         then (None, Some (SubmitTransfer sel clicked))
         else (None, Some (SubmitAttack sel clicked))
  end.

(** What a click leaves of the board when no action is submitted: owners
    and unit counts. *)
Definition holdings (ts : list Territory) : list (Owner * Z) :=
  map (fun t => (owner t, units t)) ts.

(** The territory count of a side. *)
Definition territoryCount (o : Owner) (ts : list Territory) : Z :=
  Z.of_nat (length (List.filter (fun t => Owner_eqb (owner t) o) ts)).

(** The confidence the source computes for a candidate on a board. *)
Definition evaluate (ts : list Territory) (aiStrategy : string) (a : AIAction) : Q :=
  match type a with
  | attack => evaluateAttack ts (from a) (to a) aiStrategy
  | transfer => evaluateTransfer ts (from a) (to a) aiStrategy
  end.

(** The garrison of a captured territory as the source computes it, on
    IEEE binary64 numbers: [(attackerUnits - 1) * (attackStrength /
    (attackStrength + defenseStrength))], before [Math.floor]. It marks the
    limit of the exact model (see [garrison_rounding]). *)
Definition double (z : Z) : spec_float := binary_normalize 53 1024 z 0 false.

Definition remainingUnits_double (attackerUnits attackStrength defenseStrength : Z)
  : spec_float :=
  SFmul 53 1024 (double (attackerUnits - 1))
    (SFdiv 53 1024 (double attackStrength) (double (attackStrength + defenseStrength))).

(** The unit-count invariant of the data model. *)
Definition unitsNonNegative (ts : list Territory) : Prop :=
  Forall (fun t => 0 <= units t) ts.

(** A draw of [Math.random()] lies in [0, 1). *)
Definition isDraw (r : Q) : Prop := (0 <= r)%Q /\ (r < 1)%Q.

(** * Sample games

    Cells of the board are referred to by their index in
    [createGameBoard]: 4 is Territory (1,1), 8 is (2,0), 9 is (2,1), 10 is
    (2,2), 14 is (3,1). *)

(** Every call of [Math.random()] returns 0. *)
Definition zeroDraws : nat -> Q := fun _ => 0%Q.

Definition clicks (random : nat -> Q) (cs : list Ref) (g : Game) : Game :=
  fold_left (fun g' c => handleTerritoryClick random c g') cs g.

Definition openingGame : Game := start newGame.

(** A game played through the public entry points, all draws being 0.
    The human side takes (2,1) from (1,1) and selects it, ends three
    turns, takes (2,2) from (2,1), selects (2,1) again and ends the turn;
    the automated side, advised to go for (2,1), captures it. The
    selection still designates (2,1), now held by the automated side. *)
Definition staleSelectionGame : Game :=
  let g1 := clicks zeroDraws [4; 9; 9]%nat openingGame in
  let g2 := endPlayerTurn zeroDraws (Some "Territory (3,2)"%string) g1 in
  let g3 := endPlayerTurn zeroDraws (Some "Territory (3,1)"%string) g2 in
  let g4 := endPlayerTurn zeroDraws (Some ""%string) g3 in
  let g5 := clicks zeroDraws [10; 9]%nat g4 in
  endPlayerTurn zeroDraws (Some "Territory (2,1)"%string) g5.

(** The automated side's first ranking on the opening board, no advice
    being available: three attacks of equal confidence, the first two from
    Territory (3,3). *)
Definition openingActions : list AIAction :=
  actionsToExecute (territories openingGame) (strategyText None).

(** A board of three cells on which the automated side has one candidate
    only, a transfer from a cell of 3 units to a cell of 1 unit. *)
Definition cornerGame : Game :=
  mkGame [ mkTerritory "Territory (0,0)" 0 0 ai 3 false;
           mkTerritory "Territory (1,0)" 5 0 ai 1 false;
           mkTerritory "Territory (9,9)" 45 45 player 1 false ]
         None (mkGameState true false None sideAI 1 4 1 2) [] 0.

(** A game the human side wins in two turns. Cells: 0 is Territory (0,1),
    3 is (1,0), 15 is (3,2), 16 is (3,3), 17 is (3,4), 19 is (4,2), 20 is
    (4,3). The draws are 0 but for four of them, equal to 1/2. *)
Definition luckyDraws : nat -> Q :=
  fun k => if (k =? 6)%nat || (k =? 9)%nat || (k =? 11)%nat || (k =? 18)%nat
           then (1 # 2)%Q else 0%Q.

(** First turn: the units of (0,1) and (1,0) are gathered on (1,1), which
    advances through (2,1), (2,2) and (3,2) and takes (3,3). *)
Definition firstTurnClicks : list Ref :=
  [0; 4; 0; 4; 3; 4; 3; 4; 4; 9; 9; 10; 10; 15; 15; 16]%nat.

(** Second turn: units are passed along the chain to (3,3), which takes
    (3,4); more units are passed to (3,3), which takes (4,3). *)
Definition secondTurnClicks : list Ref :=
  [15; 16; 10; 15; 15; 16; 9; 10; 10; 15; 15; 16; 16; 17;
   17; 16; 4; 9; 9; 10; 10; 15; 15; 16;
   0; 4; 4; 9; 9; 10; 10; 15; 15; 16; 16; 20]%nat.

(** The state after the last capture: the automated side holds no
    territory, the game is over and the turn is the human side's. *)
Definition wonGame : Game :=
  let g1 := clicks luckyDraws firstTurnClicks openingGame in
  let g2 := endPlayerTurn luckyDraws (Some "Territory (3,3)"%string) g1 in
  clicks luckyDraws secondTurnClicks g2.

(** * Further notions for the properties of the engine *)

(** The units a side holds: the sum accumulated by [updateGameState]. *)
Definition unitsOf (o : Owner) (ts : list Territory) : Z :=
  fold_right Z.add 0 (map units (List.filter (fun t => Owner_eqb (owner t) o) ts)).

(** The four aggregates of a game state, in the order of [countStep]. *)
Definition aggregates (st : GameState) : Z * Z * Z * Z :=
  (playerUnits st, aiUnits st, playerTerritories st, aiTerritories st).

(** The position [createGameBoard] gives to the cell of grid coordinates
    [(x, z)]. *)
Definition gridPosition (x z : Z) : Z * Z :=
  (x * spacing - offset, z * spacing - offset).

(** What never changes in a territory: its name and its position. *)
Definition identities (ts : list Territory) : list (string * Z * Z) :=
  map (fun t => (name t, posX t, posZ t)) ts.

(** The highlight flags of the territories. *)
Definition highlights (ts : list Territory) : list bool := map selected ts.

(** The score shown is the score of the board. *)
Definition scoreConsistent (g : Game) : Prop :=
  aggregates (gameState g) = countBoard (territories g).

(** Exactly the selected territory is highlighted. *)
Definition highlightConsistent (g : Game) : Prop :=
  forall i, highlights (territories g) !! i = Some true <-> selectedTerritory g = Some i.

(** The game is over exactly when a winner is recorded. *)
Definition verdictConsistent (st : GameState) : Prop :=
  gameOver st = true <-> winner st <> None.

(** The confidence of [evaluateAttack] before the adjustments for the
    advisor's text. *)
Definition attackBase (ts : list Territory) (src dst : Ref) : Q :=
  let attackerUnits := getUnits ts src in
  let defenderUnits := getUnits ts dst in
  let c0 := (inject_Z (attackerUnits - 1) / inject_Z (Z.max 1 defenderUnits))%Q in
  let c1 := if Owner_eqb (getOwner ts dst) player then (c0 * 1.5)%Q else c0 in
  (c1 + inject_Z (adjacentPlayerTerritories ts dst) * 0.2)%Q.

(** The confidence of [evaluateTransfer] before the adjustments for the
    advisor's text. *)
Definition transferBase (ts : list Territory) (src dst : Ref) : Q :=
  let fromUnits := getUnits ts src in
  let toUnits := getUnits ts dst in
  let c0 := (inject_Z (fromUnits - toUnits) / inject_Z (Z.max 1 (fromUnits + toUnits)))%Q in
  if fromUnits <=? toUnits + 2 then 0%Q
  else (c0 + inject_Z (adjacentPlayerTerritories ts dst) * 0.3)%Q.

(** *** [getAIStrategy]

    What the request to the advisor comes to: it fails, it answers in an
    unexpected format, or it answers with a text. The prompt sent does not
    bear on the result. *)
Inductive AdvisorReply :=
| RequestFailed
| UnexpectedFormat
| Answer (content : string).

Definition fallbackStrategy : string :=
  "Focus on expanding territory and reinforcing borders with player territories.".

Definition getAIStrategy (reply : AdvisorReply) : string :=
  match reply with
  | Answer content => content
  | UnexpectedFormat => fallbackStrategy
  | RequestFailed => fallbackStrategy
  end.


(** ** The entry points of the engine

    What the page does with a [Game]: the start button calls [start], a
    click that hits a territory reaches [handleTerritoryClick], the
    end-of-turn button calls [endPlayerTurn]. A command runs to completion
    before the next one. *)
Inductive Command :=
| Start
| Click (territory : Ref)
| EndTurn (advice : option string).

Definition run (random : nat -> Q) (c : Command) (g : Game) : Game :=
  match c with
  | Start => start g
  | Click territory => handleTerritoryClick random territory g
  | EndTurn advice => endPlayerTurn random advice g
  end.

Definition play (random : nat -> Q) (cs : list Command) (g : Game) : Game :=
  fold_left (fun g' c => run random c g') cs g.

(** A territory keeps its owner or passes to the side [o]. *)
Definition ownerDrift (o : Owner) (t t' : Territory) : Prop :=
  owner t' = owner t \/ owner t' = o.

(** The game with its started and game-over flags set to given values. *)
Definition withFlags (started over : bool) (g : Game) : Game :=
  let st := gameState g in
  setGameState (mkGameState started over (winner st) (currentTurn st)
                  (playerUnits st) (aiUnits st)
                  (playerTerritories st) (aiTerritories st)) g.

(** * The arithmetic of the source: IEEE binary64

    A JavaScript [number] is an IEEE binary64 value and every operation on
    it rounds to nearest, ties to even. The definitions above read the
    fractional arithmetic of the source on exact rationals; they serve for
    the properties that rounding does not touch. The ranking of the
    automated side's candidates and the garrison of a captured territory do
    depend on rounding: this module gives the same routines on binary64,
    with the operations of [SpecFloat]. Unit counts remain integers; they
    enter the arithmetic through [double], which is exact below 2^53. *)
Module Binary64.

Definition add : spec_float -> spec_float -> spec_float := SFadd 53 1024.
Definition mul : spec_float -> spec_float -> spec_float := SFmul 53 1024.
Definition div : spec_float -> spec_float -> spec_float := SFdiv 53 1024.
Definition ltb : spec_float -> spec_float -> bool := SFltb.
Definition eqb : spec_float -> spec_float -> bool := SFeqb.

(** A decimal literal of the source, [0.8] being [literal 8 10]: the
    double nearest to the quotient. *)
Definition literal (n d : Z) : spec_float := div (double n) (double d).

(** [Math.floor] of a finite double. The routines apply it to finite
    values only; infinities and NaN, which [Math.floor] returns as they
    are, read as 0 here. *)
Definition floor (x : spec_float) : Z :=
  match x with
  | S754_finite s m e =>
    let n := if s then Zneg m else Zpos m in
    if 0 <=? e then n * 2 ^ e else n / 2 ^ (- e)
  | _ => 0
  end.

(** The unit counts the arithmetic holds exactly, sums of two included. *)
Definition maxUnits : Z := 2 ^ 52.

Definition unitsExact (ts : list Territory) : Prop :=
  Forall (fun t => 0 <= units t < maxUnits) ts.

(** ** AIPlayer.ts: the confidence of a candidate *)

Record AIAction := mkAIAction {
  type : ActionType;
  from : Ref;
  to : Ref;
  confidence : spec_float
}.

Definition evaluateAttack (ts : list Territory) (src dst : Ref) (aiStrategy : string)
  : spec_float :=
  let attackerUnits := getUnits ts src in
  let defenderUnits := getUnits ts dst in
  let hint := toLowerCase aiStrategy in
  let c0 := div (double (attackerUnits - 1)) (double (Z.max 1 defenderUnits)) in
  let c1 := if Owner_eqb (getOwner ts dst) player then mul c0 (literal 15 10) else c0 in
  let c2 := add c1 (mul (double (adjacentPlayerTerritories ts dst)) (literal 2 10)) in
  let c3 := if includes hint (toLowerCase (getName ts dst))
            then mul c2 (literal 15 10) else c2 in
  let c4 := if includes hint "attack" && includes hint "player"
            then mul c3 (literal 12 10) else c3 in
  if includes hint "defensive" || includes hint "defend"
  then mul c4 (literal 8 10) else c4.

Definition evaluateTransfer (ts : list Territory) (src dst : Ref) (aiStrategy : string)
  : spec_float :=
  let fromUnits := getUnits ts src in
  let toUnits := getUnits ts dst in
  let hint := toLowerCase aiStrategy in
  let c0 := div (double (fromUnits - toUnits)) (double (Z.max 1 (fromUnits + toUnits))) in
  if fromUnits <=? toUnits + 2 then S754_zero false
  else
    let c1 := add c0 (mul (double (adjacentPlayerTerritories ts dst)) (literal 3 10)) in
    let c2 := if includes hint (toLowerCase (getName ts dst))
              then mul c1 (literal 15 10) else c1 in
    if includes hint "reinforce" || includes hint "strengthen"
    then mul c2 (literal 13 10) else c2.

Definition evaluate (ts : list Territory) (aiStrategy : string) (a : AIAction)
  : spec_float :=
  match type a with
  | attack => evaluateAttack ts (from a) (to a) aiStrategy
  | transfer => evaluateTransfer ts (from a) (to a) aiStrategy
  end.

(** ** Candidate actions, ranking and selection *)

Definition actionsFrom (ts : list Territory) (aiStrategy : string) (territory : Ref)
  : list AIAction :=
  if getUnits ts territory <=? 1 then []
  else
    map (fun adjacent =>
           if Owner_eqb (getOwner ts adjacent) ai
           then mkAIAction transfer territory adjacent
                  (evaluateTransfer ts territory adjacent aiStrategy)
           else mkAIAction attack territory adjacent
                  (evaluateAttack ts territory adjacent aiStrategy))
        (findAdjacentTerritories ts territory).

Definition possibleActions (ts : list Territory) (aiStrategy : string) : list AIAction :=
  flat_map (actionsFrom ts aiStrategy) (ownedBy ai ts).

(** [possibleActions.sort((a, b) => b.confidence - a.confidence)]: the
    comparator is positive on [(a, b)], placing [a] after [b], exactly when
    [a.confidence < b.confidence]; the stable sort is computed by
    insertion. *)
Fixpoint insertAction (a : AIAction) (l : list AIAction) : list AIAction :=
  match l with
  | [] => [a]
  | b :: l' =>
    if ltb (confidence a) (confidence b) then b :: insertAction a l'
    else a :: b :: l'
  end.

Definition sortActions (l : list AIAction) : list AIAction :=
  fold_right insertAction [] l.

(** [possibleActions.slice(0, 3)] after the sort. *)
Definition actionsToExecute (ts : list Territory) (aiStrategy : string) : list AIAction :=
  take 3 (sortActions (possibleActions ts aiStrategy)).

(** Descending confidence: the comparator does not place [a] after [b]. *)
Definition ranksBefore (a b : AIAction) : Prop :=
  ltb (confidence a) (confidence b) = false.

(** Candidates whose confidence compares equal to [c], in list order. *)
Definition withConfidence (c : spec_float) (l : list AIAction) : list AIAction :=
  List.filter (fun a => eqb (confidence a) c) l.

(** A number of sign [s]: a zero, a finite value or an infinity. *)
Definition signed (s : bool) (x : spec_float) : Prop :=
  match x with
  | S754_zero s' | S754_infinity s' | S754_finite s' _ _ => s' = s
  | S754_nan => False
  end.

(** A confidence that is a number, not negative: zero, a positive
    finite double or the positive infinity. *)
Definition nonNegative (x : spec_float) : Prop :=
  match x with
  | S754_zero s | S754_infinity s | S754_finite s _ _ => s = false
  | S754_nan => False
  end.

(** A value that is not a negative number: [Math.floor] of it is not
    negative. *)
Definition notBelowZero (x : spec_float) : Prop :=
  match x with
  | S754_finite true _ _ => False
  | _ => True
  end.

(** A draw of [Math.random()]: a double in [0, 1). *)
Definition isDraw (r : spec_float) : Prop :=
  nonNegative r /\ ltb r (double 1) = true.

Section Combat.

(** The values returned by the successive calls of [Math.random()]. *)
Variable random : nat -> spec_float.

(** [0.8 + Math.random() * 0.4] *)
Definition factor (r : spec_float) : spec_float :=
  add (literal 8 10) (mul r (literal 4 10)).

(** [Math.floor((attackerUnits - 1) * (attackStrength / (attackStrength +
    defenseStrength)))] *)
Definition garrison (attackerUnits attackStrength defenseStrength : Z) : Z :=
  floor (remainingUnits_double attackerUnits attackStrength defenseStrength).

(** ** GameState.ts: [attackTerritory] *)

Definition attackTerritory (attacker defender : Ref) (g : Game) : Game :=
  let attackerUnits := getUnits (territories g) attacker in
  let defenderUnits := getUnits (territories g) defender in
  if attackerUnits <=? 1 then
    onMessage MsgNotEnoughToAttack g
  else
    let attackStrength :=
      floor (mul (double (attackerUnits - 1)) (factor (random (randomCalls g)))) in
    let defenseStrength :=
      floor (mul (double defenderUnits) (factor (random (S (randomCalls g))))) in
    let g0 := onMessage (MsgAttacks (getName (territories g) attacker) attackStrength
                           (getName (territories g) defender) defenseStrength)
                (drawn 2 g) in
    if defenseStrength <? attackStrength then
      let remainingUnits := garrison attackerUnits attackStrength defenseStrength in
      let g1 := onTerritory attacker (setUnits 1) g0 in
      let g2 := onTerritory defender (setOwner player) g1 in
      let g3 := onTerritory defender (setUnits remainingUnits) g2 in
      onMessage (MsgAttackSuccessful (getName (territories g) defender) remainingUnits) g3
    else
      let attackerLosses := floor (mul (double attackerUnits) (literal 5 10)) in
      let g1 := onTerritory attacker
                  (setUnits (Z.max 1 (attackerUnits - attackerLosses))) g0 in
      let defenderLosses := floor (mul (double defenderUnits) (literal 3 10)) in
      let g2 := onTerritory defender
                  (setUnits (Z.max 1 (defenderUnits - defenderLosses))) g1 in
      onMessage (MsgAttackFailed attackerLosses) g2.

(** ** AIPlayer.ts: [executeAttack] and [executeTurn] *)

Definition executeAttack (src dst : Ref) (g : Game) : Game :=
  let attackerUnits := getUnits (territories g) src in
  let defenderUnits := getUnits (territories g) dst in
  if attackerUnits <=? 1 then g
  else
    let attackStrength :=
      floor (mul (double (attackerUnits - 1)) (factor (random (randomCalls g)))) in
    let defenseStrength :=
      floor (mul (double defenderUnits) (factor (random (S (randomCalls g))))) in
    let g0 := onMessage (MsgAIAttacks (getName (territories g) src) attackStrength
                           (getName (territories g) dst) defenseStrength)
                (drawn 2 g) in
    if defenseStrength <? attackStrength then
      let remainingUnits := garrison attackerUnits attackStrength defenseStrength in
      let g1 := onTerritory src (setUnits 1) g0 in
      let g2 := onTerritory dst (setOwner ai) g1 in
      let g3 := onTerritory dst (setUnits remainingUnits) g2 in
      onMessage (MsgAICaptured (getName (territories g) dst) remainingUnits) g3
    else
      let attackerLosses := floor (mul (double attackerUnits) (literal 5 10)) in
      let g1 := onTerritory src
                  (setUnits (Z.max 1 (attackerUnits - attackerLosses))) g0 in
      let defenderLosses := floor (mul (double defenderUnits) (literal 3 10)) in
      let g2 := onTerritory dst
                  (setUnits (Z.max 1 (defenderUnits - defenderLosses))) g1 in
      onMessage (MsgAIAttackFailed attackerLosses) g2.

(** The body of the loop over [actionsToExecute]. *)
Definition executeAction (action : AIAction) (g : Game) : Game :=
  match type action with
  | attack => executeAttack (from action) (to action) g
  | transfer => executeTransfer (from action) (to action) g
  end.

Definition executeActions (actions : list AIAction) (g : Game) : Game :=
  fold_left (fun g' action => executeAction action g') actions g.

Definition executeTurn (advice : option string) (g : Game) : Game :=
  if Nat.eqb (length (ownedBy ai (territories g))) 0 then g
  else
    let aiStrategy := strategyText advice in
    let g1 := announceStrategy advice g in
    executeActions (actionsToExecute (territories g1) aiStrategy) g1.

End Combat.

(** ** The combat resolver of the specification, on doubles

    [resolveAttack] of the specification with its arithmetic carried out
    on doubles, operation by operation, the quotient of the garrison being
    taken before the product as the source has it; [side] is the owner
    given to a captured territory. *)
Definition resolveAttack (side : Owner) (attacker defender : Territory)
           (r1 r2 : spec_float) : AttackOutcome :=
  if units attacker <=? 1 then InsufficientUnits
  else
    let attackStrength :=
      floor (mul (double (units attacker - 1))
               (add (literal 8 10) (mul r1 (literal 4 10)))) in
    let defenseStrength :=
      floor (mul (double (units defender))
               (add (literal 8 10) (mul r2 (literal 4 10)))) in
    if attackStrength >? defenseStrength then
      let remaining :=
        floor (mul (double (units attacker - 1))
                 (div (double attackStrength)
                    (double (attackStrength + defenseStrength)))) in
      Resolved (withUnits 1 attacker) (withUnits remaining (setOwner side defender))
    else
      let attackerLosses := floor (mul (double (units attacker)) (literal 5 10)) in
      let defenderLosses := floor (mul (double (units defender)) (literal 3 10)) in
      Resolved (withUnits (Z.max 1 (units attacker - attackerLosses)) attacker)
               (withUnits (Z.max 1 (units defender - defenderLosses)) defender).

(** The captured territory takes the owner of the attacking territory. *)
Definition resolveAttack_spec (attacker defender : Territory) (r1 r2 : spec_float)
  : AttackOutcome :=
  resolveAttack (owner attacker) attacker defender r1 r2.

(** The garrison as the specification writes it, the product first:
    [floor((attacker.units - 1) * attackStrength / (attackStrength +
    defenseStrength))], on doubles. *)
Definition garrison_spec (attackerUnits attackStrength defenseStrength : Z) : Z :=
  floor (div (mul (double (attackerUnits - 1)) (double attackStrength))
           (double (attackStrength + defenseStrength))).

End Binary64.

(** ** Sample games for the arithmetic on doubles *)

(** Every call of [Math.random()] returns 0. *)
Definition zeroDoubles : nat -> spec_float := fun _ => S754_zero false.

(** The opening board some turns later: 24 units of the human side on
    Territory (1,1) next to 20 units of the automated side on
    Territory (2,1). *)
Definition roundingGame : Game :=
  updateGameState
    (mkGame (alter (setUnits 24) 4%nat
               (alter (fun t => setUnits 20 (setOwner ai t)) 9%nat createGameBoard))
            None (mkGameState true false None sidePlayer 0 0 0 0) [] 0).

(** The draws 7/8 for the attacker and 1/2 for the defender, both exact
    doubles. *)
Definition roundingDraws : nat -> spec_float :=
  fun k => if (k =? 0)%nat then Binary64.literal 7 8 else Binary64.literal 1 2.

(** A board on which the automated side holds (0,2) with 7 units, next to
    the human side's (0,1) with 5 units, and (0,3) and (1,2) with one unit
    each, besides its three territories of the opening. *)
Definition tieGame : Game :=
  updateGameState
    (mkGame (alter (setUnits 5) 0%nat
               (alter (fun t => setUnits 7 (setOwner ai t)) 1%nat
                  (alter (fun t => setUnits 1 (setOwner ai t)) 2%nat
                     (alter (fun t => setUnits 1 (setOwner ai t)) 5%nat createGameBoard))))
            None (mkGameState true false None sideAI 0 0 0 0) [] 0).
(** * Arithmetic of [Math.floor] *)

Lemma Qfloor_half (u : Z) : Qfloor (inject_Z u / 2) = u / 2.
Proof. symmetry. apply (Zdiv_Qdiv u 2). Qed.






Section Strength.

Variables (n : Z) (r : Q).
Hypothesis Hr : isDraw r.



End Strength.


(** Rounding is outside the exact model. With 24 units attacking, strengths
    26 and 20, the exact garrison is 23 * 26 / 46 = 13, while on doubles the
    product 23 * (26 / 46) falls just below 13. *)
Remark garrison_rounding :
  (23 * 26) / (26 + 20) = 13
  /\ SFltb (remainingUnits_double 24 26 20) (double 13) = true
  /\ SFltb (double 12) (remainingUnits_double 24 26 20) = true.
Proof. repeat split; vm_compute; reflexivity. Qed.

(** * The territory store *)

Lemma alter_as_insert {A} (f : A -> A) (l : list A) (i : nat) (x : A) :
  l !! i = Some x -> alter f i l = <[i := f x]> l.
Proof.
  intros Hx. apply list_eq. intros j.
  destruct (decide (i = j)) as [<- | Hne].
  - rewrite list_lookup_alter_eq, Hx, list_lookup_insert_eq; [reflexivity |].
    now apply lookup_lt_Some in Hx.
  - now rewrite list_lookup_alter_ne, list_lookup_insert_ne.
Qed.

Lemma alter_pair_as_insert {A} (f h : A -> A) (l : list A) (i j : nat) (x y : A) :
  i <> j -> l !! i = Some x -> l !! j = Some y ->
  alter h j (alter f i l) = <[j := h y]> (<[i := f x]> l).
Proof.
  intros Hne Hx Hy.
  rewrite (alter_as_insert f l i x Hx).
  apply alter_as_insert. now rewrite list_lookup_insert_ne.
Qed.

Lemma setUnits_nonneg (n : Z) (t : Territory) : 0 <= n -> setUnits n t = withUnits n t.
Proof. intros Hn. unfold setUnits, withUnits. now rewrite Z.max_r. Qed.

Lemma getUnits_lookup (ts : list Territory) (r : Ref) (t : Territory) :
  ts !! r = Some t -> getUnits ts r = units t.
Proof. intros H. unfold getUnits. now rewrite H. Qed.


Lemma unitsNonNegative_lookup (ts : list Territory) (r : Ref) (t : Territory) :
  unitsNonNegative ts -> ts !! r = Some t -> 0 <= units t.
Proof.
  intros Hwf Ht. unfold unitsNonNegative in Hwf.
  rewrite Forall_lookup in Hwf. exact (Hwf r t Ht).
Qed.

(** * Doubles: the order *)

Ltac compare_cases :=
  repeat match goal with
         | |- context [Z.compare ?a ?b] => destruct (Z.compare_spec a b)
         | H : context [Z.compare ?a ?b] |- _ => destruct (Z.compare_spec a b)
         | |- context [Pos.compare_cont Eq ?a ?b] =>
           change (Pos.compare_cont Eq a b) with (Pos.compare a b);
           destruct (Pos.compare_spec a b)
         | H : context [Pos.compare_cont Eq ?a ?b] |- _ =>
           change (Pos.compare_cont Eq a b) with (Pos.compare a b) in H;
           destruct (Pos.compare_spec a b)
         end;
  cbn in *; try congruence; try lia.

Lemma ltb_asym (x y : spec_float) :
  Binary64.ltb x y = true -> Binary64.ltb y x = false.
Proof.
  unfold Binary64.ltb, SFltb.
  destruct x as [[] | [] | | [] mx ex], y as [[] | [] | | [] my ey]; cbn;
    try congruence; compare_cases.
Qed.

Lemma ltb_negative_transitive (x y z : spec_float) :
  y <> S754_nan ->
  Binary64.ltb x y = false -> Binary64.ltb y z = false -> Binary64.ltb x z = false.
Proof.
  unfold Binary64.ltb, SFltb. intros Hy.
  destruct y as [[] | [] | | [] my ey]; [| | | | congruence | |];
    destruct x as [[] | [] | | [] mx ex], z as [[] | [] | | [] mz ez]; cbn;
    try congruence; compare_cases.
Qed.

Lemma eqb_not_ltb (x y c : spec_float) :
  Binary64.eqb x c = true -> Binary64.eqb y c = true -> Binary64.ltb x y = false.
Proof.
  unfold Binary64.ltb, Binary64.eqb, SFltb, SFeqb.
  destruct c as [[] | [] | | [] mc ec];
    destruct x as [[] | [] | | [] mx ex], y as [[] | [] | | [] my ey]; cbn;
    try congruence; compare_cases.
Qed.

(** * Doubles: what the operations return *)

Lemma shr_1_nonneg (mrs : shr_record) : 0 <= shr_m mrs -> 0 <= shr_m (shr_1 mrs).
Proof. destruct mrs as [[| [p | p |] | p] r s]; cbn; lia. Qed.

Lemma iter_shr_1_nonneg (n : positive) (mrs : shr_record) :
  0 <= shr_m mrs -> 0 <= shr_m (SpecFloat.iter_pos shr_1 n mrs).
Proof.
  revert mrs. induction n as [n IH | n IH |]; intros mrs H; cbn [SpecFloat.iter_pos].
  - apply IH, IH, shr_1_nonneg, H.
  - apply IH, IH, H.
  - apply shr_1_nonneg, H.
Qed.

Lemma shr_fexp_nonneg (m e : Z) (l : location) :
  0 <= m -> 0 <= shr_m (fst (shr_fexp 53 1024 m e l)).
Proof.
  intros H. unfold shr_fexp, shr.
  assert (H0 : 0 <= shr_m (shr_record_of_loc m l)) by (destruct l as [| []]; exact H).
  destruct (_ - e); cbn [fst]; [exact H0 | now apply iter_shr_1_nonneg | exact H0].
Qed.

Lemma round_nearest_even_nonneg (m : Z) (l : location) :
  0 <= m -> 0 <= round_nearest_even m l.
Proof.
  intros H. destruct l as [| []]; cbn [round_nearest_even];
    [| destruct (Z.even m) | |]; lia.
Qed.

Lemma binary_round_aux_signed (s : bool) (m e : Z) (l : location) :
  0 <= m -> Binary64.signed s (binary_round_aux 53 1024 s m e l).
Proof.
  intros H. unfold binary_round_aux.
  pose proof (shr_fexp_nonneg m e l H) as H1.
  destruct (shr_fexp 53 1024 m e l) as [mrs' e']. cbn [fst] in H1.
  pose proof (shr_fexp_nonneg _ e' loc_Exact
                (round_nearest_even_nonneg _ (loc_of_shr_record mrs') H1)) as H2.
  destruct (shr_fexp 53 1024 _ e' loc_Exact) as [mrs'' e'']. cbn [fst] in H2.
  destruct (shr_m mrs'') as [| p | p]; [reflexivity | | lia].
  destruct (e'' <=? 1024 - 53); reflexivity.
Qed.

Lemma binary_round_signed (s : bool) (m : positive) (e : Z) :
  Binary64.signed s (binary_round 53 1024 s m e).
Proof.
  unfold binary_round. destruct (shl_align m e _) as [mz ez].
  now apply binary_round_aux_signed.
Qed.

Lemma double_nonNegative (z : Z) : 0 <= z -> Binary64.nonNegative (double z).
Proof.
  intros H. unfold double, binary_normalize.
  destruct z as [| p | p]; [reflexivity | | lia].
  exact (binary_round_signed false p 0).
Qed.

Lemma mul_nonNegative (x : spec_float) (m : positive) (e : Z) :
  Binary64.nonNegative x -> Binary64.nonNegative (Binary64.mul x (S754_finite false m e)).
Proof.
  unfold Binary64.mul, SFmul.
  destruct x as [s | s | | s mx ex]; cbn [Binary64.nonNegative]; intros H;
    try (subst s; reflexivity); try contradiction.
  subst s. cbn [xorb]. apply (binary_round_aux_signed false). lia.
Qed.

Lemma add_nonNegative (x y : spec_float) :
  Binary64.nonNegative x -> Binary64.nonNegative y ->
  Binary64.nonNegative (Binary64.add x y).
Proof.
  unfold Binary64.add, SFadd.
  destruct x as [sx | sx | | sx mx ex], y as [sy | sy | | sy my ey];
    cbn [Binary64.nonNegative]; intros Hx Hy; try contradiction; subst; try reflexivity.
  cbn [cond_Zopp]. unfold binary_normalize.
  destruct (Z.pos _ + Z.pos _) as [| p | p] eqn:E; [reflexivity | | lia].
  exact (binary_round_signed false p _).
Qed.

Lemma div_nonNegative (mx my : positive) (ex ey : Z) :
  Binary64.nonNegative
    (Binary64.div (S754_finite false mx ex) (S754_finite false my ey)).
Proof.
  unfold Binary64.div, SFdiv, SFdiv_core_binary.
  set (m' := match _ - _ - _ with Z0 => Zpos mx | Zpos _ => _ | Zneg _ => 0 end).
  assert (Hm : 0 <= m').
  { subst m'. destruct (_ - _ - _); [lia | apply Z.shiftl_nonneg; lia | lia]. }
  pose proof (Z.div_pos m' (Zpos my) Hm ltac:(lia)) as Hq.
  unfold Z.div in Hq. destruct (Z.div_eucl m' (Zpos my)) as [q r].
  now apply binary_round_aux_signed.
Qed.

(** ** Integers that are doubles *)

Lemma digits2_pos_lower (p : positive) : 2 ^ (Zpos (digits2_pos p) - 1) <= Zpos p.
Proof.
  induction p as [p IH | p IH |]; cbn [digits2_pos]; [| | reflexivity].
  - rewrite Pos2Z.inj_succ. replace (Z.succ (Zpos (digits2_pos p)) - 1)
      with (Z.succ (Zpos (digits2_pos p) - 1)) by lia.
    rewrite Z.pow_succ_r by lia. lia.
  - rewrite Pos2Z.inj_succ. replace (Z.succ (Zpos (digits2_pos p)) - 1)
      with (Z.succ (Zpos (digits2_pos p) - 1)) by lia.
    rewrite Z.pow_succ_r by lia. lia.
Qed.

Lemma digits2_pos_bound (p : positive) :
  Zpos p < 2 ^ 53 -> Zpos (digits2_pos p) <= 53.
Proof.
  intros H. pose proof (digits2_pos_lower p) as Hl.
  destruct (Z_le_gt_dec (Zpos (digits2_pos p)) 53) as [| Hgt]; [assumption |].
  exfalso.
  assert (2 ^ 53 <= 2 ^ (Zpos (digits2_pos p) - 1)) by (apply Z.pow_le_mono_r; lia).
  lia.
Qed.

Lemma digits2_pos_iter (p k : positive) :
  Zpos (digits2_pos (Pos.iter xO p k)) = Zpos (digits2_pos p) + Zpos k.
Proof.
  induction k as [| k IH] using Pos.peano_ind.
  - cbn. lia.
  - rewrite Pos.iter_succ. cbn [digits2_pos]. lia.
Qed.

Lemma binary_round_aux_exact (s : bool) (m : positive) (e : Z) :
  Zpos (digits2_pos m) = 53 -> -1074 <= e <= 971 ->
  binary_round_aux 53 1024 s (Zpos m) e loc_Exact = S754_finite s m e.
Proof.
  intros Hd He. unfold binary_round_aux, shr_fexp. cbn [Zdigits2 shr_record_of_loc].
  assert (E : fexp 53 1024 (Zpos (digits2_pos m) + e) - e = 0)
    by (unfold fexp, emin; lia).
  rewrite E. cbn [shr shr_m loc_of_shr_record round_nearest_even Zdigits2 shr_record_of_loc].
  rewrite E. cbn [shr shr_m].
  destruct (Z.leb_spec e (1024 - 53)); [reflexivity | lia].
Qed.

Lemma double_finite (z : Z) :
  0 < z < 2 ^ 53 -> exists m e, double z = S754_finite false m e.
Proof.
  intros [H0 H1]. destruct z as [| p | p]; try lia.
  pose proof (digits2_pos_bound p H1) as Hd.
  assert (Hd1 : 1 <= Zpos (digits2_pos p)) by lia.
  unfold double, binary_normalize, binary_round, shl_align.
  assert (E : fexp 53 1024 (Zpos (digits2_pos p) + 0) = Zpos (digits2_pos p) - 53)
    by (unfold fexp, emin; lia).
  rewrite E.
  destruct (Zpos (digits2_pos p) - 53 - 0) as [| k | k] eqn:Ek; try lia.
  - eexists _, _. apply binary_round_aux_exact; lia.
  - eexists _, _. apply binary_round_aux_exact; [| lia].
    rewrite digits2_pos_iter. lia.
Qed.

(** * Attack resolution *)


Section AttackResolution.

Variable random : nat -> Q.
Variable g : Game.
Variables att def : Ref.
Variables a d : Territory.

Hypothesis Ha : territories g !! att = Some a.
Hypothesis Hd : territories g !! def = Some d.
Hypothesis Hne : att <> def.
Hypothesis Hdn : 0 <= units d.
Hypothesis Hr1 : isDraw (random (randomCalls g)).
Hypothesis Hr2 : isDraw (random (S (randomCalls g))).



End AttackResolution.


Lemma getUnits_insert_pair (ts : list Territory) (i j : Ref) (x y x' y' : Territory) :
  i <> j -> ts !! i = Some x -> ts !! j = Some y ->
  getUnits (<[j := y']> (<[i := x']> ts)) i = units x'
  /\ getUnits (<[j := y']> (<[i := x']> ts)) j = units y'.
Proof.
  intros Hne Hx Hy. unfold getUnits.
  apply lookup_lt_Some in Hx. apply lookup_lt_Some in Hy.
  rewrite list_lookup_insert_ne by congruence.
  rewrite !list_lookup_insert_eq by (rewrite ?length_insert; assumption).
  split; reflexivity.
Qed.


(** * Attack resolution on doubles *)

Lemma nonNegative_notBelowZero (x : spec_float) :
  Binary64.nonNegative x -> Binary64.notBelowZero x.
Proof. destruct x as [s | s | | [] m e]; cbn; intros H; [exact I .. | discriminate | exact I]. Qed.

Lemma signed_notBelowZero (x : spec_float) :
  Binary64.signed false x -> Binary64.notBelowZero x.
Proof. exact (nonNegative_notBelowZero x). Qed.

Lemma mul_notBelowZero (x y : spec_float) :
  Binary64.notBelowZero x -> Binary64.notBelowZero y ->
  Binary64.notBelowZero (Binary64.mul x y).
Proof.
  unfold Binary64.mul, SFmul.
  destruct x as [sx | sx | | [] mx ex], y as [sy | sy | | [] my ey];
    cbn [Binary64.notBelowZero]; intros Hx Hy; try contradiction; try exact I.
  cbn [xorb]. apply signed_notBelowZero, binary_round_aux_signed. lia.
Qed.

Lemma add_notBelowZero (x y : spec_float) :
  Binary64.notBelowZero x -> Binary64.notBelowZero y ->
  Binary64.notBelowZero (Binary64.add x y).
Proof.
  unfold Binary64.add, SFadd.
  destruct x as [sx | sx | | [] mx ex], y as [sy | sy | | [] my ey];
    cbn [Binary64.notBelowZero]; intros Hx Hy; try contradiction; try exact I;
    try (destruct sx, sy; exact I).
  cbn [cond_Zopp]. unfold binary_normalize.
  destruct (Z.pos _ + Z.pos _) as [| p | p] eqn:E; [exact I | | lia].
  apply signed_notBelowZero, binary_round_signed.
Qed.

Lemma div_notBelowZero (x y : spec_float) :
  Binary64.notBelowZero x -> Binary64.notBelowZero y ->
  Binary64.notBelowZero (Binary64.div x y).
Proof.
  destruct x as [sx | sx | | [] mx ex], y as [sy | sy | | [] my ey];
    cbn [Binary64.notBelowZero]; intros Hx Hy; try contradiction; try exact I.
  apply nonNegative_notBelowZero, div_nonNegative.
Qed.

Lemma double_notBelowZero (z : Z) : 0 <= z -> Binary64.notBelowZero (double z).
Proof. intros H. now apply nonNegative_notBelowZero, double_nonNegative. Qed.

Lemma floor_nonneg (x : spec_float) : Binary64.notBelowZero x -> 0 <= Binary64.floor x.
Proof.
  destruct x as [s | s | | [] m e]; cbn [Binary64.notBelowZero Binary64.floor];
    intros H; try lia; try contradiction.
  cbv zeta. destruct (Z.leb_spec 0 e).
  - apply Z.mul_nonneg_nonneg; [lia | apply Z.pow_nonneg; lia].
  - apply Z.div_pos; [lia |]. apply Z.pow_pos_nonneg; lia.
Qed.

Lemma factor_notBelowZero (r : spec_float) :
  Binary64.isDraw r -> Binary64.notBelowZero (Binary64.factor r).
Proof.
  intros [Hr _]. unfold Binary64.factor.
  apply add_notBelowZero; [exact I |].
  apply mul_notBelowZero; [now apply nonNegative_notBelowZero | exact I].
Qed.

Lemma b64_strength_nonneg (n : Z) (r : spec_float) :
  0 <= n -> Binary64.isDraw r ->
  0 <= Binary64.floor (Binary64.mul (double n) (Binary64.factor r)).
Proof.
  intros Hn Hr. apply floor_nonneg, mul_notBelowZero;
    [now apply double_notBelowZero | now apply factor_notBelowZero].
Qed.

Lemma garrison_nonneg (attackerUnits attackStrength defenseStrength : Z) :
  1 <= attackerUnits -> 0 <= attackStrength -> 0 <= defenseStrength ->
  0 <= Binary64.garrison attackerUnits attackStrength defenseStrength.
Proof.
  intros Ha Has Hds. unfold Binary64.garrison, remainingUnits_double.
  apply floor_nonneg.
  apply (mul_notBelowZero (double (attackerUnits - 1))); [apply double_notBelowZero; lia |].
  apply (div_notBelowZero (double attackStrength)); apply double_notBelowZero; lia.
Qed.

(** Both attack routines against [Binary64.resolveAttack]. *)
Ltac b64_resolve_attack Ha Hd Hne Hdn Hr2 :=
  unfold Binary64.resolveAttack;
  rewrite (getUnits_lookup _ _ _ Ha), (getUnits_lookup _ _ _ Hd);
  match goal with
  | |- context [?u <=? 1] => destruct (Z.leb_spec u 1) as [Hle | Hgt]; [reflexivity |]
  end;
  rewrite Z.gtb_ltb;
  repeat match goal with
         | |- context [Binary64.add (Binary64.literal 8 10)
                         (Binary64.mul ?r (Binary64.literal 4 10))] =>
           change (Binary64.add (Binary64.literal 8 10)
                     (Binary64.mul r (Binary64.literal 4 10)))
             with (Binary64.factor r)
         end;
  match goal with
  | |- context [Binary64.floor (Binary64.mul (double (units ?d)) (Binary64.factor ?r))] =>
    let H := fresh "HDS" in
    assert (H : 0 <= Binary64.floor (Binary64.mul (double (units d)) (Binary64.factor r)))
      by (apply b64_strength_nonneg; assumption)
  end;
  match goal with
  | |- context [?ds <? ?as_] => destruct (Z.ltb_spec ds as_) as [Hwin | Hlose]
  end;
  cbn [territories onMessage onTerritory setTerritories drawn];
  [ rewrite list_alter_alter_eq;
    rewrite (alter_pair_as_insert _ _ _ _ _ _ _ Hne Ha Hd);
    unfold compose;
    rewrite !setUnits_nonneg;
    [reflexivity | first [lia | apply garrison_nonneg; lia] ..]
  | rewrite (alter_pair_as_insert _ _ _ _ _ _ _ Hne Ha Hd);
    rewrite !setUnits_nonneg by lia; reflexivity ].

Section AttackResolutionOnDoubles.

Variable random : nat -> spec_float.
Variable g : Game.
Variables att def : Ref.
Variables a d : Territory.

Hypothesis Ha : territories g !! att = Some a.
Hypothesis Hd : territories g !! def = Some d.
Hypothesis Hne : att <> def.
Hypothesis Hdn : 0 <= units d.
Hypothesis Hr2 : Binary64.isDraw (random (S (randomCalls g))).

Lemma b64_attackTerritory_resolves :
  match Binary64.resolveAttack player a d
          (random (randomCalls g)) (random (S (randomCalls g))) with
  | InsufficientUnits =>
    territories (Binary64.attackTerritory random att def g) = territories g
  | Resolved a' d' =>
    territories (Binary64.attackTerritory random att def g)
    = <[def := d']> (<[att := a']> (territories g))
  end.
Proof. unfold Binary64.attackTerritory. b64_resolve_attack Ha Hd Hne Hdn Hr2. Qed.

Lemma b64_executeAttack_resolves :
  match Binary64.resolveAttack ai a d
          (random (randomCalls g)) (random (S (randomCalls g))) with
  | InsufficientUnits =>
    territories (Binary64.executeAttack random att def g) = territories g
  | Resolved a' d' =>
    territories (Binary64.executeAttack random att def g)
    = <[def := d']> (<[att := a']> (territories g))
  end.
Proof. unfold Binary64.executeAttack. b64_resolve_attack Ha Hd Hne Hdn Hr2. Qed.

End AttackResolutionOnDoubles.

Lemma zeroDoubles_isDraw (k : nat) : Binary64.isDraw (zeroDoubles k).
Proof. split; reflexivity. Qed.

Lemma unitsExact_of_forallb (ts : list Territory) :
  forallb (fun t => (0 <=? units t) && (units t <? Binary64.maxUnits)) ts = true ->
  Binary64.unitsExact ts.
Proof.
  intros H. rewrite forallb_forall in H. apply List.Forall_forall. intros t Ht.
  specialize (H t Ht). apply andb_true_iff in H. destruct H as [H1 H2].
  apply Z.leb_le in H1. apply Z.ltb_lt in H2. split; assumption.
Qed.

Lemma unitsExact_lookup (ts : list Territory) (r : Ref) (t : Territory) :
  Binary64.unitsExact ts -> ts !! r = Some t -> 0 <= units t < Binary64.maxUnits.
Proof.
  unfold Binary64.unitsExact. intros H Ht. rewrite Forall_lookup in H. exact (H r t Ht).
Qed.

(** C2 (amended). Attack resolution follows the reference definition with
    its arithmetic carried out on doubles, [Binary64.resolveAttack_spec],
    for every attacker that belongs to the side running the routine, every
    defender and every pair of draws in [0,1), on a board whose unit counts
    are below 2^52, where doubles hold them exactly: with at most one unit
    the attack fails and no territory changes; otherwise the strengths, the
    strict comparison, the losses and the captured garrison, the quotient
    of the strengths being taken before the product, are those of the
    reference, and a captured territory goes to the attacker's side. The
    routines are [attackTerritory] for the human side and [executeAttack]
    for the automated side. *)
Theorem attack_resolution_on_doubles
  (random : nat -> spec_float) (g : Game) (att def : Ref) (a d : Territory) :
  territories g !! att = Some a ->
  territories g !! def = Some d ->
  att <> def ->
  Binary64.unitsExact (territories g) ->
  Binary64.isDraw (random (randomCalls g)) ->
  Binary64.isDraw (random (S (randomCalls g))) ->
  let r1 := random (randomCalls g) in
  let r2 := random (S (randomCalls g)) in
  (owner a = player ->
   match Binary64.resolveAttack_spec a d r1 r2 with
   | InsufficientUnits =>
     territories (Binary64.attackTerritory random att def g) = territories g
   | Resolved a' d' =>
     territories (Binary64.attackTerritory random att def g)
     = <[def := d']> (<[att := a']> (territories g))
   end)
  /\ (owner a = ai ->
      match Binary64.resolveAttack_spec a d r1 r2 with
      | InsufficientUnits =>
        territories (Binary64.executeAttack random att def g) = territories g
      | Resolved a' d' =>
        territories (Binary64.executeAttack random att def g)
        = <[def := d']> (<[att := a']> (territories g))
      end).
Proof.
  intros Ha Hd Hne Hexact Hr1 Hr2 r1 r2. subst r1 r2.
  destruct (unitsExact_lookup _ _ _ Hexact Hd) as [Hdn _].
  unfold Binary64.resolveAttack_spec. split; intros ->.
  - now apply b64_attackTerritory_resolves.
  - now apply b64_executeAttack_resolves.
Qed.

Lemma attack_resolution_on_doubles_witness :
  territories (Binary64.attackTerritory zeroDoubles 4 9 openingGame)
  = <[9%nat := mkTerritory "Territory (2,1)" 0 (-5) player 2 false]>
      (<[4%nat := mkTerritory "Territory (1,1)" (-5) (-5) player 1 false]>
         (territories openingGame)).
Proof.
  pose proof (attack_resolution_on_doubles zeroDoubles openingGame 4 9
                (mkTerritory "Territory (1,1)" (-5) (-5) player 3 false)
                (mkTerritory "Territory (2,1)" 0 (-5) neutral 0 false)
                eq_refl eq_refl ltac:(lia)
                (unitsExact_of_forallb (territories openingGame) eq_refl)
                (zeroDoubles_isDraw _) (zeroDoubles_isDraw _)) as H.
  exact (proj1 H eq_refl).
Defined.

(** In [roundingGame] 24 units of the human side attack 20 units with the
    draws 7/8 and 1/2. The strengths are 26 and 20. The specification
    garrisons floor(23 * 26 / 46) = 13 units, on exact numbers and on
    doubles alike; the routine takes the quotient first,
    floor(23 * (26 / 46)), and garrisons 12. *)
Lemma garrison_counterexample :
  exists a d a' d',
    territories roundingGame !! 4%nat = Some a
    /\ territories roundingGame !! 9%nat = Some d
    /\ (owner a, units a, owner d, units d) = (player, 24, ai, 20)
    /\ Binary64.unitsExact (territories roundingGame)
    /\ Binary64.isDraw (roundingDraws 0) /\ Binary64.isDraw (roundingDraws 1)
    /\ Binary64.floor (Binary64.mul (double 23) (Binary64.factor (roundingDraws 0))) = 26
    /\ Binary64.floor (Binary64.mul (double 20) (Binary64.factor (roundingDraws 1))) = 20
    /\ resolveAttack_spec a d (7 # 8) (1 # 2) = Resolved a' d'
    /\ (owner d', units d') = (player, 13)
    /\ Binary64.garrison_spec 24 26 20 = 13
    /\ getOwner (territories (Binary64.attackTerritory roundingDraws 4 9 roundingGame)) 9
       = player
    /\ getUnits (territories (Binary64.attackTerritory roundingDraws 4 9 roundingGame)) 9
       = 12
    /\ territories (Binary64.attackTerritory roundingDraws 4 9 roundingGame) !! 9%nat
       <> Some d'.
Proof.
  do 4 eexists.
  split; [vm_compute; reflexivity |].
  split; [vm_compute; reflexivity |].
  split; [reflexivity |].
  split; [apply unitsExact_of_forallb; vm_compute; reflexivity |].
  split; [split; vm_compute; reflexivity |].
  split; [split; vm_compute; reflexivity |].
  split; [vm_compute; reflexivity |].
  split; [vm_compute; reflexivity |].
  split; [vm_compute; reflexivity |].
  split; [reflexivity |].
  split; [vm_compute; reflexivity |].
  split; [vm_compute; reflexivity |].
  split; [vm_compute; reflexivity |].
  vm_compute. discriminate.
Qed.

(** A stale selection. In [staleSelectionGame] the selection still
    designates Territory (2,1), which the automated side has captured since
    it was selected. A click on Territory (2,0) attacks it from there, and
    the territory captured goes to the human side although the attacking
    territory is the automated side's. All draws being 0, the routine on
    doubles leaves the same owners and unit counts as on exact numbers. *)
Remark stale_selection_attack :
  exists a d,
    selectedTerritory staleSelectionGame = Some 9%nat
    /\ holdings (territories (handleTerritoryClick zeroDraws 8 staleSelectionGame))
       = holdings (territories (attackTerritory zeroDraws 9 8 staleSelectionGame))
    /\ holdings (territories (Binary64.attackTerritory zeroDoubles 9 8 staleSelectionGame))
       = holdings (territories (attackTerritory zeroDraws 9 8 staleSelectionGame))
    /\ territories staleSelectionGame !! 9%nat = Some a
    /\ territories staleSelectionGame !! 8%nat = Some d
    /\ owner a = ai
    /\ getOwner (territories (attackTerritory zeroDraws 9 8 staleSelectionGame)) 8
       = player.
Proof.
  do 2 eexists.
  split; [vm_compute; reflexivity |].
  split; [vm_compute; reflexivity |].
  split; [vm_compute; reflexivity |].
  split; [vm_compute; reflexivity |].
  split; [vm_compute; reflexivity |].
  split; [reflexivity |].
  vm_compute; reflexivity.
Qed.



(** * Transfers *)

Lemma getUnits_alter_ne (f : Territory -> Territory) (ts : list Territory) (i j : Ref) :
  i <> j -> getUnits (alter f i ts) j = getUnits ts j.
Proof. intros Hne. unfold getUnits. now rewrite list_lookup_alter_ne. Qed.

Lemma getOwner_alter_setUnits (n : Z) (ts : list Territory) (i j : Ref) :
  getOwner (alter (setUnits n) i ts) j = getOwner ts j.
Proof.
  unfold getOwner. rewrite list_lookup_alter.
  case_decide; [subst | reflexivity].
  destruct (ts !! j); reflexivity.
Qed.

Lemma half_leaves_nonneg (u : Z) : 0 < u / 2 -> 0 <= u - u / 2.
Proof. intros H. pose proof (Z.mul_div_le u 2). lia. Qed.

Lemma half_less_one_leaves_nonneg (u : Z) : 0 < (u - 1) / 2 -> 0 <= u - (u - 1) / 2.
Proof. intros H. pose proof (Z.mul_div_le (u - 1) 2). lia. Qed.

Section Transfers.

Variable g : Game.
Variables src dst : Ref.
Variables s d : Territory.
Hypothesis Hs : territories g !! src = Some s.
Hypothesis Hd : territories g !! dst = Some d.
Hypothesis Hne : src <> dst.
Hypothesis Hdn : 0 <= units d.

Lemma transferUnits_territories :
  territories (transferUnits src dst g)
  = if 0 <? Qfloor (inject_Z (units s) / 2)
    then <[dst := withUnits (units d + Qfloor (inject_Z (units s) / 2)) d]>
           (<[src := withUnits (units s - Qfloor (inject_Z (units s) / 2)) s]>
              (territories g))
    else territories g.
Proof.
  unfold transferUnits. rewrite (getUnits_lookup _ _ _ Hs).
  destruct (Z.ltb_spec 0 (Qfloor (inject_Z (units s) / 2))) as [Hpos | Hnone];
    cbn [territories onMessage onTerritory setTerritories]; [| reflexivity].
  rewrite (getUnits_alter_ne _ _ _ _ Hne), (getUnits_lookup _ _ _ Hd).
  rewrite (alter_pair_as_insert _ _ _ _ _ _ _ Hne Hs Hd).
  rewrite Qfloor_half in *.
  rewrite !setUnits_nonneg;
    [reflexivity | first [lia | now apply half_leaves_nonneg] ..].
Qed.

Lemma executeTransfer_territories :
  territories (executeTransfer src dst g)
  = if 0 <? Qfloor (inject_Z (units s - 1) / 2)
    then <[dst := withUnits (units d + Qfloor (inject_Z (units s - 1) / 2)) d]>
           (<[src := withUnits (units s - Qfloor (inject_Z (units s - 1) / 2)) s]>
              (territories g))
    else territories g.
Proof.
  unfold executeTransfer. rewrite (getUnits_lookup _ _ _ Hs).
  destruct (Z.ltb_spec 0 (Qfloor (inject_Z (units s - 1) / 2))) as [Hpos | Hnone];
    cbn [territories onMessage onTerritory setTerritories]; [| reflexivity].
  rewrite (getUnits_alter_ne _ _ _ _ Hne), (getUnits_lookup _ _ _ Hd).
  rewrite (alter_pair_as_insert _ _ _ _ _ _ _ Hne Hs Hd).
  rewrite Qfloor_half in *.
  rewrite !setUnits_nonneg;
    [reflexivity | first [lia | now apply half_less_one_leaves_nonneg] ..].
Qed.

End Transfers.

Lemma transferUnits_owner (g : Game) (src dst r : Ref) :
  getOwner (territories (transferUnits src dst g)) r = getOwner (territories g) r.
Proof.
  unfold transferUnits. destruct (0 <? _);
    cbn [territories onMessage onTerritory setTerritories]; [| reflexivity].
  now rewrite !getOwner_alter_setUnits.
Qed.

Lemma executeTransfer_owner (g : Game) (src dst r : Ref) :
  getOwner (territories (executeTransfer src dst g)) r = getOwner (territories g) r.
Proof.
  unfold executeTransfer. destruct (0 <? _);
    cbn [territories onMessage onTerritory setTerritories]; [| reflexivity].
  now rewrite !getOwner_alter_setUnits.
Qed.

(** C3. Transfers differ by initiator and conserve units. The human
    side's [transferUnits] moves floor(source.units / 2) and, when that
    amount is not positive, changes no territory and reports the failure;
    the automated side's [executeTransfer] moves
    floor((source.units - 1) / 2) and, when that amount is not positive,
    does nothing at all. A move subtracts the amount from the source and
    adds it to the destination; no owner changes, and the sum of the two
    unit counts is the same before and after. *)
Theorem transfers_conserve_units (g : Game) (src dst : Ref) (s d : Territory) :
  territories g !! src = Some s ->
  territories g !! dst = Some d ->
  src <> dst ->
  0 <= units d ->
  let moved := Qfloor (inject_Z (units s) / 2) in
  let movedAI := Qfloor (inject_Z (units s - 1) / 2) in
  (if 0 <? moved
   then territories (transferUnits src dst g)
        = <[dst := withUnits (units d + moved) d]>
            (<[src := withUnits (units s - moved) s]> (territories g))
   else territories (transferUnits src dst g) = territories g
        /\ messages (transferUnits src dst g) = messages g ++ [MsgNotEnoughToTransfer])
  /\ (if 0 <? movedAI
      then territories (executeTransfer src dst g)
           = <[dst := withUnits (units d + movedAI) d]>
               (<[src := withUnits (units s - movedAI) s]> (territories g))
      else executeTransfer src dst g = g)
  /\ (forall r, getOwner (territories (transferUnits src dst g)) r
                = getOwner (territories g) r)
  /\ (forall r, getOwner (territories (executeTransfer src dst g)) r
                = getOwner (territories g) r)
  /\ getUnits (territories (transferUnits src dst g)) src
     + getUnits (territories (transferUnits src dst g)) dst
     = units s + units d
  /\ getUnits (territories (executeTransfer src dst g)) src
     + getUnits (territories (executeTransfer src dst g)) dst
     = units s + units d.
Proof.
  intros Hs Hd Hne Hdn moved movedAI.
  pose proof (transferUnits_territories g src dst s d Hs Hd Hne Hdn) as Hh.
  pose proof (executeTransfer_territories g src dst s d Hs Hd Hne Hdn) as Ha.
  fold moved in Hh. fold movedAI in Ha.
  assert (Hsum : forall m,
             let ts' := <[dst := withUnits (units d + m) d]>
                          (<[src := withUnits (units s - m) s]> (territories g)) in
             getUnits ts' src + getUnits ts' dst = units s + units d).
  { intros m ts'. subst ts'.
    destruct (getUnits_insert_pair (territories g) src dst s d
                (withUnits (units s - m) s) (withUnits (units d + m) d) Hne Hs Hd)
      as [-> ->]. cbn [units withUnits]. lia. }
  assert (Hsame : getUnits (territories g) src + getUnits (territories g) dst
                  = units s + units d)
    by (now rewrite (getUnits_lookup _ _ _ Hs), (getUnits_lookup _ _ _ Hd)).
  split; [| split; [| split; [| split; [| split]]]].
  - destruct (0 <? moved) eqn:E; [exact Hh | split; [exact Hh |]].
    unfold transferUnits. rewrite (getUnits_lookup _ _ _ Hs). fold moved.
    now rewrite E.
  - destruct (0 <? movedAI) eqn:E; [exact Ha |].
    unfold executeTransfer. rewrite (getUnits_lookup _ _ _ Hs). fold movedAI.
    now rewrite E.
  - intros r. apply transferUnits_owner.
  - intros r. apply executeTransfer_owner.
  - rewrite Hh. destruct (0 <? moved); [apply Hsum | exact Hsame].
  - rewrite Ha. destruct (0 <? movedAI); [apply Hsum | exact Hsame].
Qed.

Lemma transfers_conserve_units_witness :
  getUnits (territories (transferUnits 4 0 openingGame)) 4
  + getUnits (territories (transferUnits 4 0 openingGame)) 0
  = 3 + 3.
Proof.
  pose proof (transfers_conserve_units openingGame 4 0
                (mkTerritory "Territory (1,1)" (-5) (-5) player 3 false)
                (mkTerritory "Territory (0,1)" (-10) (-5) player 3 false)
                eq_refl eq_refl ltac:(lia) ltac:(simpl; lia)) as H.
  exact (proj1 (proj2 (proj2 (proj2 (proj2 H))))).
Defined.

(** * The unit-count invariant *)

Lemma setUnits_units (n : Z) (t : Territory) : units (setUnits n t) = Z.max 0 n.
Proof. reflexivity. Qed.

Lemma nonneg_onTerritory (f : Territory -> Territory) (r : Ref) (g : Game) :
  (forall t, 0 <= units t -> 0 <= units (f t)) ->
  unitsNonNegative (territories g) ->
  unitsNonNegative (territories (onTerritory r f g)).
Proof.
  intros Hf Hwf. cbn [territories onTerritory setTerritories].
  apply Forall_alter; [exact Hwf | intros t _; apply Hf].
Qed.

Lemma nonneg_setUnits (n : Z) (t : Territory) : 0 <= units t -> 0 <= units (setUnits n t).
Proof. intros _. rewrite setUnits_units. lia. Qed.

Lemma nonneg_setOwner (o : Owner) (t : Territory) : 0 <= units t -> 0 <= units (setOwner o t).
Proof. intros H. exact H. Qed.

Lemma nonneg_setSelected (b : bool) (t : Territory) :
  0 <= units t -> 0 <= units (setSelected b t).
Proof. intros H. exact H. Qed.

(** Every routine reaches the territories through [onTerritory] with one
    of the three setters. *)
Ltac nonneg_routine :=
  repeat first
    [ assumption
    | progress cbn [territories onMessage setSelection setGameState drawn setCurrentTurn]
    | apply nonneg_onTerritory;
      [ first [apply nonneg_setUnits | apply nonneg_setOwner | apply nonneg_setSelected] | ]
    | match goal with
      | |- unitsNonNegative (territories (if ?b then _ else _)) => destruct b
      | |- unitsNonNegative (territories (match ?o with _ => _ end)) => destruct o
      end ].

Lemma updateGameState_territories (g : Game) :
  territories (updateGameState g) = territories g.
Proof.
  unfold updateGameState. destruct (countBoard (territories g)) as [[[pu au] pt] at_].
  destruct (at_ =? 0); [reflexivity |]. destruct (pt =? 0); reflexivity.
Qed.

Lemma nonneg_transferUnits (src dst : Ref) (g : Game) :
  unitsNonNegative (territories g) ->
  unitsNonNegative (territories (transferUnits src dst g)).
Proof. intros Hwf. unfold transferUnits. nonneg_routine. Qed.

Lemma nonneg_executeTransfer (src dst : Ref) (g : Game) :
  unitsNonNegative (territories g) ->
  unitsNonNegative (territories (executeTransfer src dst g)).
Proof. intros Hwf. unfold executeTransfer. nonneg_routine. Qed.

Lemma nonneg_reinforce (o : Owner) (ts : list Territory) :
  unitsNonNegative ts -> unitsNonNegative (reinforce o ts).
Proof.
  intros Hwf. unfold reinforce. apply Forall_map.
  eapply Forall_impl; [exact Hwf |].
  intros t Ht. cbn beta. destruct (Owner_eqb (owner t) o); [| exact Ht].
  now apply nonneg_setUnits.
Qed.

Lemma nonneg_createGameBoard : unitsNonNegative createGameBoard.
Proof.
  unfold unitsNonNegative.
  let board := eval vm_compute in createGameBoard in
  change createGameBoard with board.
  repeat (constructor; [cbn [units]; lia |]). constructor.
Qed.

Section Invariant.

Variable random : nat -> Q.

Lemma nonneg_attackTerritory (att def : Ref) (g : Game) :
  unitsNonNegative (territories g) ->
  unitsNonNegative (territories (attackTerritory random att def g)).
Proof. intros Hwf. unfold attackTerritory. nonneg_routine. Qed.

Lemma nonneg_executeAttack (src dst : Ref) (g : Game) :
  unitsNonNegative (territories g) ->
  unitsNonNegative (territories (executeAttack random src dst g)).
Proof. intros Hwf. unfold executeAttack. nonneg_routine. Qed.

Lemma nonneg_handleTerritoryClick (c : Ref) (g : Game) :
  unitsNonNegative (territories g) ->
  unitsNonNegative (territories (handleTerritoryClick random c g)).
Proof.
  intros Hwf. unfold handleTerritoryClick.
  destruct (currentTurn (gameState g)); [| exact Hwf].
  destruct (selectedTerritory g) as [sel |].
  - destruct (Nat.eqb sel c); [nonneg_routine |].
    destruct (isAdjacent (territories g) sel c); [| exact Hwf].
    rewrite updateGameState_territories.
    cbn [territories setSelection].
    apply nonneg_onTerritory; [apply nonneg_setSelected |].
    destruct (Owner_eqb _ _);
      [now apply nonneg_transferUnits | now apply nonneg_attackTerritory].
  - nonneg_routine.
Qed.

Lemma nonneg_executeActions (actions : list AIAction) (g : Game) :
  unitsNonNegative (territories g) ->
  unitsNonNegative (territories (executeActions random actions g)).
Proof.
  revert g. induction actions as [| action actions IH]; intros g Hwf; [exact Hwf |].
  cbn [executeActions fold_left]. apply IH. unfold executeAction.
  destruct (type action);
    [now apply nonneg_executeAttack | now apply nonneg_executeTransfer].
Qed.

Lemma nonneg_executeTurn (advice : option string) (g : Game) :
  unitsNonNegative (territories g) ->
  unitsNonNegative (territories (executeTurn random advice g)).
Proof.
  intros Hwf. unfold executeTurn.
  destruct (Nat.eqb _ 0); [exact Hwf |].
  apply nonneg_executeActions. unfold announceStrategy. destruct advice; exact Hwf.
Qed.

Lemma nonneg_endPlayerTurn (advice : option string) (g : Game) :
  unitsNonNegative (territories g) ->
  unitsNonNegative (territories (endPlayerTurn random advice g)).
Proof.
  intros Hwf. unfold endPlayerTurn.
  destruct (negb _ || _); [exact Hwf |].
  rewrite updateGameState_territories. cbn [territories setCurrentTurn setGameState setTerritories].
  apply nonneg_reinforce, nonneg_executeTurn.
  cbn [territories onMessage setCurrentTurn setGameState].
  rewrite updateGameState_territories. cbn [territories onMessage setTerritories].
  now apply nonneg_reinforce.
Qed.

End Invariant.

Lemma nonneg_start (g : Game) :
  unitsNonNegative (territories g) -> unitsNonNegative (territories (start g)).
Proof.
  intros Hwf. unfold start. cbn [territories onMessage].
  now rewrite updateGameState_territories.
Qed.

Lemma nonneg_openingGame : unitsNonNegative (territories openingGame).
Proof.
  apply nonneg_start. unfold newGame. rewrite updateGameState_territories.
  exact nonneg_createGameBoard.
Qed.

(** C9. The unit count of every territory is at least 0 after every
    operation. [setUnits] stores the maximum of 0 and its argument, so any
    computed reduction is clamped at 0; the board built at setup satisfies
    the bound, and reinforcement, both transfers, both attacks, a click,
    the automated turn, a whole end of turn and [start] preserve it. *)
Theorem units_never_negative :
  (forall n t, units (setUnits n t) = Z.max 0 n /\ 0 <= units (setUnits n t))
  /\ unitsNonNegative (territories newGame)
  /\ forall (random : nat -> Q) (g : Game),
       unitsNonNegative (territories g) ->
       (forall o, unitsNonNegative (reinforce o (territories g)))
       /\ (forall src dst,
             unitsNonNegative (territories (transferUnits src dst g))
             /\ unitsNonNegative (territories (executeTransfer src dst g))
             /\ unitsNonNegative (territories (attackTerritory random src dst g))
             /\ unitsNonNegative (territories (executeAttack random src dst g)))
       /\ (forall c, unitsNonNegative (territories (handleTerritoryClick random c g)))
       /\ (forall advice, unitsNonNegative (territories (executeTurn random advice g)))
       /\ (forall advice, unitsNonNegative (territories (endPlayerTurn random advice g)))
       /\ unitsNonNegative (territories (start g)).
Proof.
  split; [intros n t; rewrite setUnits_units; split; [reflexivity | lia] |].
  split.
  { unfold newGame. rewrite updateGameState_territories. exact nonneg_createGameBoard. }
  intros random g Hwf.
  split; [intros o; now apply nonneg_reinforce |].
  split.
  { intros src dst. repeat split.
    - now apply nonneg_transferUnits.
    - now apply nonneg_executeTransfer.
    - now apply nonneg_attackTerritory.
    - now apply nonneg_executeAttack. }
  split; [intros c; now apply nonneg_handleTerritoryClick |].
  split; [intros advice; now apply nonneg_executeTurn |].
  split; [intros advice; now apply nonneg_endPlayerTurn |].
  now apply nonneg_start.
Qed.

Lemma units_never_negative_witness :
  unitsNonNegative (territories openingGame)
  /\ unitsNonNegative (territories (endPlayerTurn zeroDraws None openingGame)).
Proof.
  destruct units_never_negative as (_ & Hnew & Hops).
  assert (Hopen : unitsNonNegative (territories openingGame))
    by (exact (proj2 (proj2 (proj2 (proj2 (proj2 (Hops zeroDraws newGame Hnew))))))).
  split; [exact Hopen |].
  exact (proj1 (proj2 (proj2 (proj2 (proj2 (Hops zeroDraws openingGame Hopen))))) None).
Defined.

(** * Adjacency *)

Lemma distanceToSquared_nonneg (p q : Z * Z) : 0 <= distanceToSquared p q.
Proof.
  unfold distanceToSquared.
  pose proof (Z.square_nonneg (fst p - fst q)).
  pose proof (Z.square_nonneg (snd p - snd q)). lia.
Qed.

Lemma distanceToSquared_sym (p q : Z * Z) : distanceToSquared p q = distanceToSquared q p.
Proof. unfold distanceToSquared. ring. Qed.

Lemma sqrt_49 : sqrt 49 = 7%R.
Proof. replace 49%R with (7 * 7)%R by lra. apply sqrt_square. lra. Qed.

(** The comparison of the square root with 7 is the comparison of the
    squared distance with 49. *)
Lemma within7_distanceTo (p q : Z * Z) :
  within7 p q = true <-> (distanceTo p q < 7)%R.
Proof.
  unfold within7, distanceTo. rewrite Z.ltb_lt.
  pose proof (distanceToSquared_nonneg p q) as Hs.
  set (s := distanceToSquared p q) in *.
  rewrite <- sqrt_49. split.
  - intros Hlt. apply sqrt_lt_1_alt. split.
    + now apply IZR_le.
    + now apply IZR_lt.
  - intros Hlt. apply sqrt_lt_0_alt in Hlt. now apply lt_IZR.
Qed.

Lemma within7_sym (p q : Z * Z) : within7 p q = within7 q p.
Proof. unfold within7. now rewrite distanceToSquared_sym. Qed.

Lemma within7_refl (p : Z * Z) : within7 p p = true.
Proof. unfold within7, distanceToSquared. rewrite !Z.sub_diag. reflexivity. Qed.

Lemma findAdjacentTerritories_spec (ts : list Territory) (a b : Ref) :
  In b (findAdjacentTerritories ts a)
  <-> (b < length ts)%nat /\ b <> a
      /\ within7 (getPosition ts a) (getPosition ts b) = true.
Proof.
  unfold findAdjacentTerritories, allRefs.
  rewrite filter_In, in_seq.
  destruct (Nat.eqb_spec b a) as [-> | Hne]; split.
  - intros [_ H]. discriminate.
  - intros (_ & H & _). contradiction.
  - intros [Hin H]. repeat split; [lia | assumption | assumption].
  - intros (Hlt & _ & H). split; [lia | assumption].
Qed.

(** C6. Between two distinct territories of the board, adjacency holds
    exactly when the Euclidean distance between their positions is below 7,
    for [isAdjacent] of the game engine and for the automated side's
    [findAdjacentTerritories] alike, and it is symmetric. No territory is
    adjacent to itself: [findAdjacentTerritories] never lists the territory
    it is called for, and the click handler, which tests the selected
    territory for identity first, answers a click on it by deselecting it
    and never submits an action from a territory to itself. *)
Theorem adjacency_relations (ts : list Territory) (a b : Ref) :
  a <> b -> (a < length ts)%nat -> (b < length ts)%nat ->
  (isAdjacent ts a b = true
   <-> (distanceTo (getPosition ts a) (getPosition ts b) < 7)%R)
  /\ (In b (findAdjacentTerritories ts a)
      <-> (distanceTo (getPosition ts a) (getPosition ts b) < 7)%R)
  /\ isAdjacent ts a b = isAdjacent ts b a
  /\ (In b (findAdjacentTerritories ts a) <-> In a (findAdjacentTerritories ts b))
  /\ ~ In a (findAdjacentTerritories ts a)
  /\ (forall (random : nat -> Q) (g : Game),
        territories g = ts ->
        currentTurn (gameState g) = sidePlayer ->
        selectedTerritory g = Some a ->
        handleTerritoryClick random a g
        = onMessage MsgDeselected
            (setSelection None (onTerritory a (setSelected false) g))).
Proof.
  intros Hne Ha Hb. unfold isAdjacent.
  split; [apply within7_distanceTo |].
  split.
  { rewrite findAdjacentTerritories_spec, within7_distanceTo. intuition congruence. }
  split; [apply within7_sym |].
  split.
  { rewrite !findAdjacentTerritories_spec.
    rewrite (within7_sym (getPosition ts b)). intuition congruence. }
  split.
  { rewrite findAdjacentTerritories_spec. intros (_ & H & _). now apply H. }
  intros random g _ Hturn Hsel. unfold handleTerritoryClick.
  now rewrite Hturn, Hsel, Nat.eqb_refl.
Qed.

Lemma adjacency_relations_witness :
  In 9%nat (findAdjacentTerritories createGameBoard 4)
  <-> In 4%nat (findAdjacentTerritories createGameBoard 9).
Proof.
  exact (proj1 (proj2 (proj2 (proj2
           (adjacency_relations createGameBoard 4 9
              ltac:(lia) ltac:(vm_compute; lia) ltac:(vm_compute; lia)))))).
Defined.

(** * The selection protocol *)

Lemma holdings_alter_setSelected (b : bool) (r : Ref) (ts : list Territory) :
  holdings (alter (setSelected b) r ts) = holdings ts.
Proof.
  unfold holdings. revert r. induction ts as [| t ts IH]; intros r; [reflexivity |].
  destruct r as [| r]; cbn; [reflexivity |]. f_equal. apply IH.
Qed.

Lemma Owner_eqb_eq (a b : Owner) : Owner_eqb a b = true <-> a = b.
Proof. destruct a, b; cbn; split; intros H; congruence. Qed.

Lemma Owner_eqb_neq (a b : Owner) : Owner_eqb a b = false <-> a <> b.
Proof. destruct a, b; cbn; split; intros H; congruence. Qed.

Section Selection.

Variable random : nat -> Q.

(** C5 (amended). On the human side's turn, the game not being over, a
    click follows the selection protocol of the specification: the new
    selection is the protocol's, a submitted transfer or attack is applied
    and the selection cleared (the game state is then recomputed), and
    without a submission owners, unit counts and game state are unchanged.
    Selecting and deselecting emit their message; a click on a territory
    the human side does not own, nothing being selected, changes nothing
    and emits no message; a click on a non-adjacent territory keeps the
    selection and emits the not-adjacent message only. *)
Theorem selection_follows_protocol (g : Game) (clicked : Ref) :
  currentTurn (gameState g) = sidePlayer ->
  gameOver (gameState g) = false ->
  let g' := handleTerritoryClick random clicked g in
  let ts := territories g in
  selectedTerritory g' = fst (selectionProtocol ts (selectedTerritory g) clicked)
  /\ match snd (selectionProtocol ts (selectedTerritory g) clicked) with
     | Some (SubmitTransfer src dst) =>
       g' = updateGameState
              (setSelection None
                 (onTerritory src (setSelected false) (transferUnits src dst g)))
     | Some (SubmitAttack src dst) =>
       g' = updateGameState
              (setSelection None
                 (onTerritory src (setSelected false) (attackTerritory random src dst g)))
     | None =>
       holdings (territories g') = holdings ts /\ gameState g' = gameState g
     end
  /\ (selectedTerritory g = None ->
      getOwner ts clicked = player ->
      messages g' = messages g ++ [MsgSelected (getName ts clicked) (getUnits ts clicked)])
  /\ (selectedTerritory g = None -> getOwner ts clicked <> player -> g' = g)
  /\ (selectedTerritory g = Some clicked -> messages g' = messages g ++ [MsgDeselected])
  /\ (forall sel, selectedTerritory g = Some sel -> sel <> clicked ->
                  isAdjacent ts sel clicked = false ->
                  g' = onMessage MsgNotAdjacent g).
Proof.
  intros Hturn _ g' ts. subst g' ts.
  unfold handleTerritoryClick, selectionProtocol. rewrite Hturn.
  destruct (selectedTerritory g) as [sel |] eqn:Esel.
  - rewrite (Nat.eqb_sym clicked sel).
    destruct (Nat.eqb_spec sel clicked) as [-> | Hne].
    + cbn [fst snd selectedTerritory onMessage setSelection territories onTerritory
             setTerritories gameState messages].
      rewrite holdings_alter_setSelected.
      repeat split; intros; try discriminate; try reflexivity; congruence.
    + destruct (isAdjacent (territories g) sel clicked) eqn:Eadj; cbn [negb fst snd].
      * destruct (Owner_eqb (getOwner (territories g) clicked) player);
          cbn [fst snd]; (split; [| split; [reflexivity |]]).
        1, 3: unfold updateGameState;
              destruct (countBoard _) as [[[pu au] pt] at_];
              destruct (at_ =? 0); [reflexivity |]; destruct (pt =? 0); reflexivity.
        all: repeat split; intros; try discriminate; congruence.
      * cbn [selectedTerritory onMessage territories gameState].
        repeat split; intros; try discriminate; try reflexivity; congruence.
  - destruct (Owner_eqb (getOwner (territories g) clicked) player) eqn:Eown;
      cbn [fst snd selectedTerritory onMessage setSelection territories onTerritory
             setTerritories gameState messages].
    + apply Owner_eqb_eq in Eown. rewrite ?holdings_alter_setSelected.
      repeat split; intros;
        first [discriminate | reflexivity | congruence | (exfalso; auto; fail)].
    + apply Owner_eqb_neq in Eown.
      repeat split; intros;
        first [discriminate | reflexivity | congruence | (exfalso; auto; fail)].
Qed.

End Selection.

Lemma selection_follows_protocol_witness :
  selectedTerritory (handleTerritoryClick zeroDraws 4 openingGame) = Some 4%nat.
Proof.
  exact (proj1 (selection_follows_protocol zeroDraws openingGame 4 eq_refl eq_refl)).
Defined.

(** Nothing is selected and Territory (1,2) is neutral: the click leaves the
    message log as it was. *)
Lemma click_unowned_counterexample :
  currentTurn (gameState openingGame) = sidePlayer
  /\ gameOver (gameState openingGame) = false
  /\ selectedTerritory openingGame = None
  /\ getOwner (territories openingGame) 5 = neutral
  /\ messages (handleTerritoryClick zeroDraws 5 openingGame) = messages openingGame
  /\ handleTerritoryClick zeroDraws 5 openingGame = openingGame.
Proof. repeat split; reflexivity. Qed.

(** * The end of the human side's turn *)

Lemma countStep_counts (ts : list Territory) (pu au pt at_ : Z) :
  snd (fst (fold_left countStep ts (pu, au, pt, at_))) = pt + territoryCount player ts
  /\ snd (fold_left countStep ts (pu, au, pt, at_)) = at_ + territoryCount ai ts.
Proof.
  unfold territoryCount.
  revert pu au pt at_. induction ts as [| t ts IH]; intros pu au pt at_.
  - cbn. lia.
  - cbn [fold_left countStep List.filter].
    destruct (owner t); cbn [Owner_eqb length];
      destruct (IH (pu + units t) au (pt + 1) at_) as [E1 E2];
      destruct (IH pu (au + units t) pt (at_ + 1)) as [E3 E4];
      destruct (IH pu au pt at_) as [E5 E6];
      rewrite ?E1, ?E2, ?E3, ?E4, ?E5, ?E6; lia.
Qed.

Lemma countBoard_counts (ts : list Territory) :
  snd (fst (countBoard ts)) = territoryCount player ts
  /\ snd (countBoard ts) = territoryCount ai ts.
Proof.
  unfold countBoard. destruct (countStep_counts ts 0 0 0 0) as [-> ->]. lia.
Qed.

(** The win check of [updateGameState]. *)
Lemma updateGameState_check (g : Game) :
  let st := gameState (updateGameState g) in
  currentTurn st = currentTurn (gameState g)
  /\ playerTerritories st = territoryCount player (territories g)
  /\ aiTerritories st = territoryCount ai (territories g)
  /\ (territoryCount ai (territories g) = 0 ->
      gameOver st = true /\ winner st = Some sidePlayer)
  /\ (territoryCount ai (territories g) <> 0 ->
      territoryCount player (territories g) = 0 ->
      gameOver st = true /\ winner st = Some sideAI)
  /\ (territoryCount ai (territories g) <> 0 ->
      territoryCount player (territories g) <> 0 ->
      gameOver st = gameOver (gameState g) /\ winner st = winner (gameState g)).
Proof.
  unfold updateGameState.
  destruct (countBoard_counts (territories g)) as [Ep Ea].
  destruct (countBoard (territories g)) as [[[pu au] pt] at_].
  cbn [fst snd] in Ep, Ea. subst pt at_.
  destruct (Z.eqb_spec (territoryCount ai (territories g)) 0) as [Ha | Ha];
    [| destruct (Z.eqb_spec (territoryCount player (territories g)) 0) as [Hp | Hp]];
    cbn; repeat split; intros; try reflexivity; congruence.
Qed.

Lemma reinforce_lookup (o : Owner) (ts : list Territory) (i : nat) (t : Territory) :
  0 <= units t ->
  ts !! i = Some t ->
  reinforce o ts !! i
  = Some (if Owner_eqb (owner t) o then withUnits (units t + 1) t else t).
Proof.
  intros Hn Ht. unfold reinforce.
  change (map ?f ts) with (f <$> ts). rewrite list_lookup_fmap, Ht. cbn.
  destruct (Owner_eqb (owner t) o); [| reflexivity].
  rewrite setUnits_nonneg by lia. reflexivity.
Qed.

Section EndOfTurn.

Variable random : nat -> Q.

Lemma endPlayerTurn_guard (advice : option string) (g : Game) :
  gameStarted (gameState g) = false \/ gameOver (gameState g) = true ->
  endPlayerTurn random advice g = g.
Proof.
  intros [H | H]; unfold endPlayerTurn; rewrite H; [reflexivity |].
  now rewrite orb_true_r.
Qed.

(** C4. [endPlayerTurn] changes nothing when the game is not started or
    is over. Otherwise the automated turn runs on a state [g3] in which
    every human-owned territory has exactly one unit more and the others
    are as before, the turn being the automated side's; after that turn
    every territory then owned by the automated side gets exactly one unit
    more, the turn returns to the human side and the win condition is
    checked on the final board: no automated-side territory gives game over
    with the human side as winner, else no human-side territory gives game
    over with the automated side as winner. *)
Theorem endPlayerTurn_sequence (advice : option string) (g : Game) :
  unitsNonNegative (territories g) ->
  (gameStarted (gameState g) = false \/ gameOver (gameState g) = true ->
   endPlayerTurn random advice g = g)
  /\ (gameStarted (gameState g) = true -> gameOver (gameState g) = false ->
      exists g3 : Game,
        (forall i t, territories g !! i = Some t ->
                     territories g3 !! i
                     = Some (if Owner_eqb (owner t) player
                             then withUnits (units t + 1) t else t))
        /\ length (territories g3) = length (territories g)
        /\ currentTurn (gameState g3) = sideAI
        /\ randomCalls g3 = randomCalls g
        /\ (forall i t, territories (executeTurn random advice g3) !! i = Some t ->
                        territories (endPlayerTurn random advice g) !! i
                        = Some (if Owner_eqb (owner t) ai
                                then withUnits (units t + 1) t else t))
        /\ length (territories (endPlayerTurn random advice g))
           = length (territories (executeTurn random advice g3))
        /\ currentTurn (gameState (endPlayerTurn random advice g)) = sidePlayer
        /\ (territoryCount ai (territories (endPlayerTurn random advice g)) = 0 ->
            gameOver (gameState (endPlayerTurn random advice g)) = true
            /\ winner (gameState (endPlayerTurn random advice g)) = Some sidePlayer)
        /\ (territoryCount ai (territories (endPlayerTurn random advice g)) <> 0 ->
            territoryCount player (territories (endPlayerTurn random advice g)) = 0 ->
            gameOver (gameState (endPlayerTurn random advice g)) = true
            /\ winner (gameState (endPlayerTurn random advice g)) = Some sideAI)).
Proof.
  intros Hwf. split; [apply endPlayerTurn_guard |].
  intros Hstarted Hover.
  unfold endPlayerTurn. rewrite Hstarted, Hover. cbn [negb orb].
  set (g2 := updateGameState (onMessage MsgTurnEnded
                (setTerritories (reinforce player (territories g)) g))).
  set (g3 := onMessage MsgAIThinking (setCurrentTurn sideAI g2)).
  set (g4 := executeTurn random advice g3).
  set (g5 := setCurrentTurn sidePlayer
               (setTerritories (reinforce ai (territories g4)) g4)).
  assert (Ets3 : territories g3 = reinforce player (territories g)).
  { subst g3 g2. cbn [territories onMessage setCurrentTurn setGameState].
    now rewrite updateGameState_territories. }
  assert (Hwf4 : unitsNonNegative (territories g4)).
  { subst g4. apply nonneg_executeTurn. rewrite Ets3. now apply nonneg_reinforce. }
  assert (Ets : territories (updateGameState g5) = reinforce ai (territories g4))
    by (rewrite updateGameState_territories; reflexivity).
  exists g3. split; [| split; [| split; [| split; [| split; [| split; [| split]]]]]].
  - intros i t Ht. rewrite Ets3. apply reinforce_lookup; [| exact Ht].
    exact (unitsNonNegative_lookup _ _ _ Hwf Ht).
  - rewrite Ets3. unfold reinforce. now rewrite length_map.
  - reflexivity.
  - subst g3 g2. cbn [randomCalls onMessage setCurrentTurn setGameState].
    unfold updateGameState. destruct (countBoard _) as [[[pu au] pt] at_].
    destruct (at_ =? 0); [reflexivity |]. destruct (pt =? 0); reflexivity.
  - intros i t Ht. rewrite Ets. apply reinforce_lookup; [| exact Ht].
    exact (unitsNonNegative_lookup _ _ _ Hwf4 Ht).
  - rewrite Ets. unfold reinforce. now rewrite length_map.
  - destruct (updateGameState_check g5) as (Eturn & _). rewrite Eturn. reflexivity.
  - destruct (updateGameState_check g5) as (_ & _ & _ & Hwin & Hlose & _).
    rewrite updateGameState_territories. split; assumption.
Qed.

End EndOfTurn.

Lemma endPlayerTurn_sequence_witness :
  currentTurn (gameState (endPlayerTurn zeroDraws None openingGame)) = sidePlayer.
Proof.
  destruct (endPlayerTurn_sequence zeroDraws None openingGame nonneg_openingGame)
    as [_ Hrun].
  destruct (Hrun eq_refl eq_refl) as (g3 & _ & _ & _ & _ & _ & _ & Hturn & _).
  exact Hturn.
Defined.

(** * The automated side's turn *)

Lemma insertAction_perm (a : AIAction) (l : list AIAction) :
  Permutation (insertAction a l) (a :: l).
Proof.
  induction l as [| b l IH]; cbn [insertAction]; [reflexivity |].
  destruct (Qltb (confidence a) (confidence b)); [| reflexivity].
  rewrite IH. apply perm_swap.
Qed.

Lemma sortActions_perm (l : list AIAction) : Permutation (sortActions l) l.
Proof.
  induction l as [| a l IH]; cbn [sortActions fold_right]; [reflexivity |].
  rewrite insertAction_perm. now apply perm_skip.
Qed.

Lemma possibleActions_evaluated (ts : list Territory) (aiStrategy : string) (a : AIAction) :
  In a (possibleActions ts aiStrategy) ->
  confidence a = evaluate ts aiStrategy a
  /\ 1 < getUnits ts (from a)
  /\ getOwner ts (from a) = ai
  /\ In (to a) (findAdjacentTerritories ts (from a)).
Proof.
  unfold possibleActions. rewrite in_flat_map.
  intros (src & Hsrc & Ha). unfold actionsFrom in Ha.
  destruct (Z.leb_spec (getUnits ts src) 1) as [Hle | Hgt]; [destruct Ha |].
  apply in_map_iff in Ha. destruct Ha as (dst & <- & Hdst).
  unfold ownedBy in Hsrc. apply filter_In in Hsrc. destruct Hsrc as [_ Hown].
  apply Owner_eqb_eq in Hown.
  destruct (Owner_eqb (getOwner ts dst) ai); cbn; repeat split; assumption.
Qed.
Lemma ownedBy_none_no_candidate (ts : list Territory) (aiStrategy : string) :
  ownedBy ai ts = [] -> possibleActions ts aiStrategy = [].
Proof. intros H. unfold possibleActions. now rewrite H. Qed.

Lemma announceStrategy_territories (advice : option string) (g : Game) :
  territories (announceStrategy advice g) = territories g.
Proof. destruct advice; reflexivity. Qed.

Section AutomatedTurn.

Variable random : nat -> Q.

Lemma executeAttack_guard (src dst : Ref) (g : Game) :
  getUnits (territories g) src <= 1 -> executeAttack random src dst g = g.
Proof.
  intros Hle. unfold executeAttack.
  destruct (Z.leb_spec (getUnits (territories g) src) 1); [reflexivity | lia].
Qed.

Lemma executeActions_app (pre post : list AIAction) (g : Game) :
  executeActions random (pre ++ post) g
  = executeActions random post (executeActions random pre g).
Proof. unfold executeActions. apply fold_left_app. Qed.

Lemma executeTurn_runs (advice : option string) (g : Game) :
  ownedBy ai (territories g) <> [] ->
  executeTurn random advice g
  = executeActions random
      (actionsToExecute (territories g) (strategyText advice))
      (announceStrategy advice g).
Proof.
  intros Hne. unfold executeTurn.
  destruct (ownedBy ai (territories g)) as [| r rs]; [congruence |].
  cbn [length Nat.eqb]. now rewrite announceStrategy_territories.
Qed.

(** C7. The automated side applies no attack from a territory of at most
    one unit. [executeAttack] leaves the game as it is for such a source;
    every candidate is generated from a source of more than one unit; and
    during a turn, an attack whose source has been brought down to one unit
    by the actions executed before it changes nothing, the turn going on
    with the remaining actions. *)
Theorem automated_attack_needs_two_units :
  (forall g src dst,
      getUnits (territories g) src <= 1 -> executeAttack random src dst g = g)
  /\ (forall ts hint a, In a (possibleActions ts hint) -> 1 < getUnits ts (from a))
  /\ (forall advice g pre act post,
         actionsToExecute (territories g) (strategyText advice) = pre ++ act :: post ->
         type act = attack ->
         let before := executeActions random pre (announceStrategy advice g) in
         getUnits (territories before) (from act) <= 1 ->
         executeActions random (pre ++ [act]) (announceStrategy advice g) = before
         /\ executeTurn random advice g = executeActions random post before).
Proof.
  split; [intros g src dst; apply executeAttack_guard |].
  split; [intros ts hint a Ha; exact (proj1 (proj2 (possibleActions_evaluated ts hint a Ha))) |].
  intros advice g pre act post Eacts Hatt before Hle.
  subst before. set (before := executeActions random pre _) in *.
  assert (Estep : executeAction random act before = before).
  { unfold executeAction. rewrite Hatt. now apply executeAttack_guard. }
  split.
  - rewrite executeActions_app. exact Estep.
  - rewrite executeTurn_runs.
    + rewrite Eacts, executeActions_app.
      fold before. unfold executeActions. cbn [fold_left].
      now rewrite Estep.
    + intros Hnone.
      apply (ownedBy_none_no_candidate _ (strategyText advice)) in Hnone.
      unfold actionsToExecute in Eacts. rewrite Hnone in Eacts.
      destruct pre; discriminate.
Qed.

End AutomatedTurn.

Lemma automated_attack_needs_two_units_witness :
  executeActions zeroDraws (take 1 openingActions ++ drop 1 (take 2 openingActions))
    (announceStrategy None openingGame)
  = executeActions zeroDraws (take 1 openingActions) (announceStrategy None openingGame).
Proof.
  pose proof (proj2 (proj2 (automated_attack_needs_two_units zeroDraws))
                None openingGame
                (take 1 openingActions)
                (mkAIAction attack 16 15 (20 # 10))
                (drop 2 openingActions)
                eq_refl eq_refl ltac:(vm_compute; discriminate)) as H.
  exact (proj1 H).
Defined.

(** * The ranking of the automated side, on doubles *)

Lemma nonNegative_number (x : spec_float) : Binary64.nonNegative x -> x <> S754_nan.
Proof. intros H ->. exact H. Qed.

Lemma b64_insertAction_perm (a : Binary64.AIAction) (l : list Binary64.AIAction) :
  Permutation (Binary64.insertAction a l) (a :: l).
Proof.
  induction l as [| b l IH]; cbn [Binary64.insertAction]; [reflexivity |].
  destruct (Binary64.ltb _ _); [| reflexivity].
  rewrite IH. apply perm_swap.
Qed.

Lemma b64_sortActions_perm (l : list Binary64.AIAction) :
  Permutation (Binary64.sortActions l) l.
Proof.
  induction l as [| a l IH]; cbn [Binary64.sortActions fold_right]; [reflexivity |].
  rewrite b64_insertAction_perm. now apply perm_skip.
Qed.

Lemma b64_insertAction_sorted (a : Binary64.AIAction) (l : list Binary64.AIAction) :
  Forall (fun b => Binary64.nonNegative (Binary64.confidence b)) l ->
  StronglySorted Binary64.ranksBefore l ->
  StronglySorted Binary64.ranksBefore (Binary64.insertAction a l).
Proof.
  induction l as [| b l IH]; intros Hn Hs; cbn [Binary64.insertAction].
  - repeat constructor.
  - apply StronglySorted_inv in Hs. destruct Hs as [Hl Hb].
    apply Forall_cons_iff in Hn. destruct Hn as [Hnb Hnl].
    destruct (Binary64.ltb (Binary64.confidence a) (Binary64.confidence b)) eqn:E.
    + constructor; [now apply IH |].
      apply (Permutation_Forall (Permutation_sym (b64_insertAction_perm a l))).
      constructor; [now apply ltb_asym | exact Hb].
    + constructor; [now constructor |].
      constructor; [exact E |].
      eapply Forall_impl; [exact Hb |].
      intros c Hc. unfold Binary64.ranksBefore in *.
      apply (ltb_negative_transitive _ (Binary64.confidence b));
        [now apply nonNegative_number | exact E | exact Hc].
Qed.

Lemma b64_sortActions_sorted (l : list Binary64.AIAction) :
  Forall (fun b => Binary64.nonNegative (Binary64.confidence b)) l ->
  StronglySorted Binary64.ranksBefore (Binary64.sortActions l).
Proof.
  induction l as [| a l IH]; intros Hn; cbn [Binary64.sortActions fold_right];
    [constructor |].
  apply Forall_cons_iff in Hn. destruct Hn as [_ Hl].
  apply b64_insertAction_sorted; [| now apply IH].
  apply (Permutation_Forall (Permutation_sym (b64_sortActions_perm l))). exact Hl.
Qed.

Lemma b64_insertAction_stable
  (c : spec_float) (a : Binary64.AIAction) (l : list Binary64.AIAction) :
  Binary64.withConfidence c (Binary64.insertAction a l)
  = Binary64.withConfidence c (a :: l).
Proof.
  unfold Binary64.withConfidence.
  induction l as [| b l IH]; cbn [Binary64.insertAction]; [reflexivity |].
  destruct (Binary64.ltb (Binary64.confidence a) (Binary64.confidence b)) eqn:E;
    [| reflexivity].
  cbn [List.filter] in *. rewrite IH.
  destruct (Binary64.eqb (Binary64.confidence a) c) eqn:Ea; [| reflexivity].
  destruct (Binary64.eqb (Binary64.confidence b) c) eqn:Eb; [| reflexivity].
  rewrite (eqb_not_ltb _ _ c Ea Eb) in E. discriminate.
Qed.

Lemma b64_sortActions_stable (c : spec_float) (l : list Binary64.AIAction) :
  Binary64.withConfidence c (Binary64.sortActions l) = Binary64.withConfidence c l.
Proof.
  induction l as [| a l IH]; [reflexivity |].
  change (Binary64.sortActions (a :: l))
    with (Binary64.insertAction a (Binary64.sortActions l)).
  rewrite b64_insertAction_stable. unfold Binary64.withConfidence in *.
  cbn [List.filter]. now rewrite IH.
Qed.

(** ** No confidence is NaN *)

Lemma unitsExact_getUnits (ts : list Territory) (r : Ref) :
  Binary64.unitsExact ts -> 0 <= getUnits ts r < Binary64.maxUnits.
Proof.
  unfold Binary64.unitsExact, getUnits. intros H.
  destruct (ts !! r) as [t |] eqn:E; cbn.
  - rewrite Forall_lookup in H. exact (H r t E).
  - unfold Binary64.maxUnits. lia.
Qed.

Lemma maxUnits_twice : 2 * Binary64.maxUnits = 2 ^ 53.
Proof. reflexivity. Qed.

Lemma div_of_units (n d : Z) :
  0 < n < 2 ^ 53 -> 0 < d < 2 ^ 53 ->
  Binary64.nonNegative (Binary64.div (double n) (double d)).
Proof.
  intros Hn Hd.
  destruct (double_finite n Hn) as (mn & en & ->).
  destruct (double_finite d Hd) as (md & ed & ->).
  apply div_nonNegative.
Qed.

Ltac literal_value n d :=
  let v := eval vm_compute in (Binary64.literal n d) in
  replace (Binary64.literal n d) with v by (vm_compute; reflexivity).

Lemma evaluateAttack_nonNegative
  (ts : list Territory) (src dst : Ref) (aiStrategy : string) :
  Binary64.unitsExact ts -> 1 < getUnits ts src ->
  Binary64.nonNegative (Binary64.evaluateAttack ts src dst aiStrategy).
Proof.
  intros Hts Hsrc.
  pose proof (unitsExact_getUnits ts src Hts) as Ha.
  pose proof (unitsExact_getUnits ts dst Hts) as Hd.
  pose proof maxUnits_twice as Hm.
  unfold Binary64.evaluateAttack. cbv zeta.
  literal_value 15 10. literal_value 2 10. literal_value 12 10. literal_value 8 10.
  assert (H0 : Binary64.nonNegative
                 (Binary64.div (double (getUnits ts src - 1))
                    (double (Z.max 1 (getUnits ts dst)))))
    by (apply div_of_units; lia).
  assert (Hadj : Binary64.nonNegative
                   (Binary64.mul (double (adjacentPlayerTerritories ts dst))
                      (S754_finite false 7205759403792794 (-55)))).
  { apply mul_nonNegative, double_nonNegative. unfold adjacentPlayerTerritories. lia. }
  repeat match goal with
         | |- context [if ?b then _ else _] => destruct b
         end;
    repeat first [assumption | apply mul_nonNegative | apply add_nonNegative].
Qed.

Lemma evaluateTransfer_nonNegative
  (ts : list Territory) (src dst : Ref) (aiStrategy : string) :
  Binary64.unitsExact ts ->
  Binary64.nonNegative (Binary64.evaluateTransfer ts src dst aiStrategy).
Proof.
  intros Hts.
  pose proof (unitsExact_getUnits ts src Hts) as Ha.
  pose proof (unitsExact_getUnits ts dst Hts) as Hd.
  pose proof maxUnits_twice as Hm.
  unfold Binary64.evaluateTransfer. cbv zeta.
  destruct (Z.leb_spec (getUnits ts src) (getUnits ts dst + 2)) as [| Hgt];
    [reflexivity |].
  literal_value 15 10. literal_value 3 10. literal_value 13 10.
  assert (H0 : Binary64.nonNegative
                 (Binary64.div (double (getUnits ts src - getUnits ts dst))
                    (double (Z.max 1 (getUnits ts src + getUnits ts dst)))))
    by (apply div_of_units; lia).
  assert (Hadj : Binary64.nonNegative
                   (Binary64.mul (double (adjacentPlayerTerritories ts dst))
                      (S754_finite false 5404319552844595 (-54)))).
  { apply mul_nonNegative, double_nonNegative. unfold adjacentPlayerTerritories. lia. }
  repeat match goal with
         | |- context [if ?b then _ else _] => destruct b
         end;
    repeat first [assumption | apply mul_nonNegative | apply add_nonNegative].
Qed.

Lemma b64_possibleActions_evaluated
  (ts : list Territory) (aiStrategy : string) (a : Binary64.AIAction) :
  In a (Binary64.possibleActions ts aiStrategy) ->
  Binary64.confidence a = Binary64.evaluate ts aiStrategy a
  /\ 1 < getUnits ts (Binary64.from a)
  /\ getOwner ts (Binary64.from a) = ai
  /\ In (Binary64.to a) (findAdjacentTerritories ts (Binary64.from a))
  /\ Binary64.type a
     = (if Owner_eqb (getOwner ts (Binary64.to a)) ai then transfer else attack).
Proof.
  unfold Binary64.possibleActions. rewrite in_flat_map.
  intros (src & Hsrc & Ha). unfold Binary64.actionsFrom in Ha.
  destruct (Z.leb_spec (getUnits ts src) 1) as [Hle | Hgt]; [destruct Ha |].
  apply in_map_iff in Ha. destruct Ha as (dst & <- & Hdst).
  unfold ownedBy in Hsrc. apply filter_In in Hsrc. destruct Hsrc as [_ Hown].
  apply Owner_eqb_eq in Hown. unfold Binary64.evaluate.
  destruct (Owner_eqb (getOwner ts dst) ai) eqn:E; cbn; rewrite ?E;
    repeat split; assumption.
Qed.

Lemma candidates_nonNegative (ts : list Territory) (aiStrategy : string) :
  Binary64.unitsExact ts ->
  Forall (fun a => Binary64.nonNegative (Binary64.confidence a))
    (Binary64.possibleActions ts aiStrategy).
Proof.
  intros Hts. apply List.Forall_forall. intros a Ha.
  apply b64_possibleActions_evaluated in Ha.
  destruct Ha as (-> & Hu & _ & _ & _). unfold Binary64.evaluate.
  destruct (Binary64.type a);
    [now apply evaluateAttack_nonNegative | now apply evaluateTransfer_nonNegative].
Qed.

Lemma b64_executeTurn_runs
  (random : nat -> spec_float) (advice : option string) (g : Game) :
  ownedBy ai (territories g) <> [] ->
  Binary64.executeTurn random advice g
  = Binary64.executeActions random
      (Binary64.actionsToExecute (territories g) (strategyText advice))
      (announceStrategy advice g).
Proof.
  intros Hne. unfold Binary64.executeTurn.
  destruct (ownedBy ai (territories g)) as [| r rs]; [congruence |].
  cbn [length Nat.eqb]. now rewrite announceStrategy_territories.
Qed.

(** C8. On an automated-side turn the candidates are ranked by a stable
    sort in descending confidence, the confidences being the doubles the
    source computes: the ranking is a permutation of the candidates, is
    sorted, and keeps candidates of equal confidence in their original
    order. The actions executed are the first min(3, number of candidates)
    of the ranking, whatever their confidence: each one is carried out by
    [executeAttack] or by [executeTransfer], according to its type, in
    that order, from the state in which the strategy was announced. Every
    confidence is the evaluation of its candidate on the board as it was
    before the turn; the list executed is fixed from that board. The unit
    counts are taken below 2^52, where doubles hold them exactly. *)
Theorem automated_turn_runs_top_three
  (random : nat -> spec_float) (advice : option string) (g : Game) :
  Binary64.unitsExact (territories g) ->
  let ts := territories g in
  let hint := strategyText advice in
  let candidates := Binary64.possibleActions ts hint in
  let ranked := Binary64.sortActions candidates in
  Permutation ranked candidates
  /\ StronglySorted Binary64.ranksBefore ranked
  /\ (forall c, Binary64.withConfidence c ranked = Binary64.withConfidence c candidates)
  /\ Binary64.actionsToExecute ts hint = take 3 ranked
  /\ length (Binary64.actionsToExecute ts hint) = Nat.min 3 (length candidates)
  /\ (forall a, In a candidates -> Binary64.confidence a = Binary64.evaluate ts hint a)
  /\ (ownedBy ai ts <> [] ->
      Binary64.executeTurn random advice g
      = fold_left
          (fun g' a =>
             match Binary64.type a with
             | attack =>
               Binary64.executeAttack random (Binary64.from a) (Binary64.to a) g'
             | transfer => executeTransfer (Binary64.from a) (Binary64.to a) g'
             end)
          (Binary64.actionsToExecute ts hint) (announceStrategy advice g))
  /\ (ownedBy ai ts = [] ->
      candidates = [] /\ Binary64.executeTurn random advice g = g).
Proof.
  intros Hexact ts hint candidates ranked.
  split; [apply b64_sortActions_perm |].
  split; [apply b64_sortActions_sorted, candidates_nonNegative, Hexact |].
  split; [intros c; apply b64_sortActions_stable |].
  split; [reflexivity |].
  split.
  { unfold Binary64.actionsToExecute. fold candidates ranked.
    rewrite length_take. f_equal.
    apply Permutation_length, b64_sortActions_perm. }
  split; [intros a Ha; exact (proj1 (b64_possibleActions_evaluated ts hint a Ha)) |].
  split; [apply b64_executeTurn_runs |].
  intros Hnone. split.
  - unfold candidates, Binary64.possibleActions. now rewrite Hnone.
  - unfold Binary64.executeTurn. fold ts. now rewrite Hnone.
Qed.

Lemma automated_turn_runs_top_three_witness :
  Binary64.executeTurn zeroDoubles None cornerGame
  = fold_left
      (fun g' a =>
         match Binary64.type a with
         | attack =>
           Binary64.executeAttack zeroDoubles (Binary64.from a) (Binary64.to a) g'
         | transfer => executeTransfer (Binary64.from a) (Binary64.to a) g'
         end)
      (Binary64.actionsToExecute (territories cornerGame) (strategyText None))
      (announceStrategy None cornerGame).
Proof.
  exact (proj1 (proj2 (proj2 (proj2 (proj2 (proj2 (proj2
           (automated_turn_runs_top_three zeroDoubles None cornerGame
              (unitsExact_of_forallb (territories cornerGame) eq_refl))))))))
           ltac:(vm_compute; discriminate)).
Defined.

(** The single candidate of [cornerGame] has confidence 0 and is executed:
    one unit moves. *)
Example zero_confidence_transfer_executed :
  map (fun a => (Binary64.type a, Binary64.from a, Binary64.to a,
                 Binary64.eqb (Binary64.confidence a) (S754_zero false)))
      (Binary64.actionsToExecute (territories cornerGame) (strategyText None))
  = [(transfer, 0%nat, 1%nat, true)]
  /\ map units (territories (Binary64.executeTurn zeroDoubles None cornerGame))
     = [2; 2; 1].
Proof. split; vm_compute; reflexivity. Qed.

(** Rounding decides a ranking. On the board of [tieGame] the attack
    from (0,2) on (0,1) is rated (6 / 5) * 1.5 + 0.2: exactly 2 on
    rationals, where it ties with the attacks on empty territories and,
    coming first, leads the ranking; 1.9999999999999998 on doubles, where
    it ranks below them and is not among the three actions executed. *)
Remark ranking_rounding :
  map (fun a => (type a, from a, to a))
      (actionsToExecute (territories tieGame) EmptyString)
  = [(attack, 1%nat, 0%nat); (attack, 16%nat, 11%nat); (attack, 16%nat, 15%nat)]
  /\ map (fun a => (Binary64.type a, Binary64.from a, Binary64.to a))
         (Binary64.actionsToExecute (territories tieGame) EmptyString)
     = [(attack, 16%nat, 11%nat); (attack, 16%nat, 15%nat); (attack, 17%nat, 12%nat)]
  /\ Binary64.ltb (Binary64.evaluateAttack (territories tieGame) 1 0 EmptyString)
       (double 2) = true
  /\ (evaluateAttack (territories tieGame) 1 0 EmptyString == 2)%Q.
Proof. repeat split; vm_compute; reflexivity. Qed.

(** * After the end of the game *)

(** C1. The game being over, [endPlayerTurn] changes nothing, but a click
    is still handled. [wonGame] is reached through [start], clicks and
    [endPlayerTurn]; there the game is over, yet a click on Territory (4,3)
    selects it and a click on Territory (3,3) then transfers a unit, and a
    click on Territory (1,0) followed by one on the neutral Territory (2,0)
    attacks and captures it. Only the turn is tested by
    [handleTerritoryClick]. *)
Theorem clicks_after_game_over :
  gameStarted (gameState wonGame) = true
  /\ gameOver (gameState wonGame) = true
  /\ winner (gameState wonGame) = Some sidePlayer
  /\ selectedTerritory wonGame = None
  /\ endPlayerTurn luckyDraws None wonGame = wonGame
  /\ selectedTerritory (handleTerritoryClick luckyDraws 20 wonGame) = Some 20%nat
  /\ (getUnits (territories wonGame) 20 = 2
      /\ getUnits (territories wonGame) 16 = 1
      /\ getUnits (territories (clicks luckyDraws [20; 16]%nat wonGame)) 20 = 1
      /\ getUnits (territories (clicks luckyDraws [20; 16]%nat wonGame)) 16 = 2)
  /\ (getOwner (territories wonGame) 8 = neutral
      /\ getUnits (territories wonGame) 3 = 2
      /\ getOwner (territories (clicks luckyDraws [3; 8]%nat wonGame)) 8 = player
      /\ getUnits (territories (clicks luckyDraws [3; 8]%nat wonGame)) 3 = 1
      /\ getUnits (territories (clicks luckyDraws [3; 8]%nat wonGame)) 8 = 1).
Proof. repeat split; vm_compute; reflexivity. Qed.

(** * The board and its grid *)

Lemma within7_grid (x1 z1 x2 z2 : Z) :
  within7 (gridPosition x1 z1) (gridPosition x2 z2) = true
  <-> Z.abs (x1 - x2) + Z.abs (z1 - z2) <= 1.
Proof.
  unfold within7, distanceToSquared, gridPosition, spacing. cbn [fst snd].
  rewrite Z.ltb_lt.
  replace (x1 * 5 - offset - (x2 * 5 - offset)) with (5 * (x1 - x2)) by ring.
  replace (z1 * 5 - offset - (z2 * 5 - offset)) with (5 * (z1 - z2)) by ring.
  set (a := x1 - x2). set (b := z1 - z2). clearbody a b.
  replace (5 * a * (5 * a) + 5 * b * (5 * b)) with (25 * (a * a + b * b)) by ring.
  pose proof (Z.square_nonneg a) as Ha. pose proof (Z.square_nonneg b) as Hb.
  split; intros H.
  - assert (Hsq : a * a + b * b <= 1) by lia.
    assert (Ba : -1 <= a <= 1).
    { split; [destruct (Z_le_gt_dec (-1) a) | destruct (Z_le_gt_dec a 1)];
        [lia | nia | lia | nia]. }
    assert (Bb : -1 <= b <= 1).
    { split; [destruct (Z_le_gt_dec (-1) b) | destruct (Z_le_gt_dec b 1)];
        [lia | nia | lia | nia]. }
    assert (Ea : a = -1 \/ a = 0 \/ a = 1) by lia.
    assert (Eb : b = -1 \/ b = 0 \/ b = 1) by lia.
    destruct Ea as [-> | [-> | ->]], Eb as [-> | [-> | ->]]; cbn in *; lia.
  - assert (Ea : a = -1 \/ a = 0 \/ a = 1) by lia.
    assert (Eb : b = -1 \/ b = 0 \/ b = 1) by lia.
    destruct Ea as [-> | [-> | ->]], Eb as [-> | [-> | ->]]; cbn in *; lia.
Qed.

Lemma createGameBoard_cell (t : Territory) :
  In t createGameBoard ->
  exists x z,
    0 <= x <= 4 /\ 0 <= z <= 4
    /\ (posX t, posZ t) = gridPosition x z
    /\ name t = territoryName x z.
Proof.
  unfold createGameBoard. rewrite in_flat_map.
  intros (x & Hx & Ht). rewrite in_flat_map in Ht. destruct Ht as (z & Hz & Ht).
  exists x, z.
  assert (Hrange : forall v, In v gridRange -> 0 <= v <= 4).
  { intros v Hv. unfold gridRange in Hv. apply in_map_iff in Hv.
    destruct Hv as (k & <- & Hk). apply in_seq in Hk.
    change (Z.to_nat gridSize) with 5%nat in Hk. lia. }
  split; [now apply Hrange |]. split; [now apply Hrange |].
  unfold boardCell in Ht.
  destruct (_ || _); [destruct Ht |].
  destruct Ht as [<- | []].
  destruct (_ && _); [split; reflexivity |].
  destruct (_ && _); split; reflexivity.
Qed.

(** X1. The board of [createGameBoard] lies on a grid of spacing 5: every
    cell has grid coordinates, which its name shows, and two cells are within
    the adjacency distance exactly when their coordinates differ by at most
    one step along one axis. Diagonal cells are not adjacent. *)
Theorem board_adjacency_is_orthogonal (t1 t2 : Territory) :
  In t1 createGameBoard -> In t2 createGameBoard ->
  exists x1 z1 x2 z2,
    name t1 = territoryName x1 z1 /\ name t2 = territoryName x2 z2
    /\ (posX t1, posZ t1) = gridPosition x1 z1
    /\ (posX t2, posZ t2) = gridPosition x2 z2
    /\ (within7 (posX t1, posZ t1) (posX t2, posZ t2) = true
        <-> Z.abs (x1 - x2) + Z.abs (z1 - z2) <= 1).
Proof.
  intros H1 H2.
  destruct (createGameBoard_cell t1 H1) as (x1 & z1 & _ & _ & P1 & N1).
  destruct (createGameBoard_cell t2 H2) as (x2 & z2 & _ & _ & P2 & N2).
  exists x1, z1, x2, z2. repeat split; try assumption.
  - rewrite P1, P2. apply within7_grid.
  - rewrite P1, P2. apply within7_grid.
Qed.

Lemma board_adjacency_is_orthogonal_witness :
  exists x1 z1 x2 z2,
    "Territory (1,1)"%string = territoryName x1 z1
    /\ "Territory (2,2)"%string = territoryName x2 z2
    /\ (-5, -5) = gridPosition x1 z1
    /\ (0, 0) = gridPosition x2 z2
    /\ (within7 (-5, -5) (0, 0) = true <-> Z.abs (x1 - x2) + Z.abs (z1 - z2) <= 1).
Proof.
  exact (board_adjacency_is_orthogonal
           (mkTerritory "Territory (1,1)" (-5) (-5) player 3 false)
           (mkTerritory "Territory (2,2)" 0 0 neutral 0 false)
           ltac:(vm_compute; tauto) ltac:(vm_compute; tauto)).
Defined.

(** * The game state recomputed *)

Lemma countStep_sums (ts : list Territory) (pu au pt at_ : Z) :
  fold_left countStep ts (pu, au, pt, at_)
  = (pu + unitsOf player ts, au + unitsOf ai ts,
     pt + territoryCount player ts, at_ + territoryCount ai ts).
Proof.
  unfold unitsOf, territoryCount.
  revert pu au pt at_. induction ts as [| t ts IH]; intros pu au pt at_.
  - cbn. repeat (match goal with |- (_, _) = (_, _) => f_equal end); lia.
  - cbn [fold_left countStep List.filter].
    destruct (owner t); cbn [Owner_eqb map fold_right length]; rewrite IH;
      repeat (match goal with |- (_, _) = (_, _) => f_equal end); lia.
Qed.

Lemma countBoard_sums (ts : list Territory) :
  countBoard ts
  = (unitsOf player ts, unitsOf ai ts, territoryCount player ts, territoryCount ai ts).
Proof. unfold countBoard. rewrite countStep_sums. reflexivity. Qed.

Lemma updateGameState_aggregates_eq (g : Game) :
  aggregates (gameState (updateGameState g)) = countBoard (territories g).
Proof.
  unfold updateGameState.
  destruct (countBoard (territories g)) as [[[pu au] pt] at_].
  destruct (at_ =? 0); [reflexivity |]. destruct (pt =? 0); reflexivity.
Qed.

Lemma updateGameState_frame (g : Game) :
  selectedTerritory (updateGameState g) = selectedTerritory g
  /\ randomCalls (updateGameState g) = randomCalls g
  /\ gameStarted (gameState (updateGameState g)) = gameStarted (gameState g)
  /\ currentTurn (gameState (updateGameState g)) = currentTurn (gameState g).
Proof.
  unfold updateGameState.
  destruct (countBoard (territories g)) as [[[pu au] pt] at_].
  destruct (at_ =? 0); [repeat split |]. destruct (pt =? 0); repeat split.
Qed.

Lemma updateGameState_verdict (g : Game) :
  gameOver (gameState (updateGameState g))
  = gameOver (gameState g)
    || (territoryCount ai (territories g) =? 0)
    || (territoryCount player (territories g) =? 0)
  /\ winner (gameState (updateGameState g))
     = if territoryCount ai (territories g) =? 0 then Some sidePlayer
       else if territoryCount player (territories g) =? 0 then Some sideAI
            else winner (gameState g).
Proof.
  unfold updateGameState. rewrite countBoard_sums.
  destruct (territoryCount ai (territories g) =? 0).
  - cbn. now rewrite orb_true_r.
  - destruct (territoryCount player (territories g) =? 0); cbn.
    + now rewrite orb_true_r.
    + now rewrite !orb_false_r.
Qed.

(** X2. [updateGameState] counts the board: the units of a side are the
    sum of the units of the territories it owns, its territory count their
    number; the board, the selection, the started flag and the turn are left
    as they were. *)
Theorem updateGameState_counts_the_board (g : Game) :
  let st := gameState (updateGameState g) in
  playerUnits st = unitsOf player (territories g)
  /\ aiUnits st = unitsOf ai (territories g)
  /\ playerTerritories st = territoryCount player (territories g)
  /\ aiTerritories st = territoryCount ai (territories g)
  /\ territories (updateGameState g) = territories g
  /\ selectedTerritory (updateGameState g) = selectedTerritory g
  /\ gameStarted st = gameStarted (gameState g)
  /\ currentTurn st = currentTurn (gameState g).
Proof.
  intros st. subst st.
  pose proof (updateGameState_aggregates_eq g) as E.
  rewrite countBoard_sums in E. unfold aggregates in E.
  destruct (updateGameState_frame g) as (Hsel & _ & Hst & Hturn).
  injection E as E1 E2 E3 E4.
  repeat split; try assumption. apply updateGameState_territories.
Qed.

(** X3. The verdict of [updateGameState] in terms of the territory counts:
    the game is over if it was already, or if a side holds no territory;
    the human side is recorded as winner when the automated side holds
    none, even if the human side holds none either (as on an empty board),
    else the automated side when the human side holds none, else the winner
    is kept. The game-over flag is never cleared. *)
Theorem updateGameState_verdict_by_counts (g : Game) :
  let st := gameState g in
  let st' := gameState (updateGameState g) in
  let noAI := territoryCount ai (territories g) =? 0 in
  let noPlayer := territoryCount player (territories g) =? 0 in
  gameOver st' = gameOver st || noAI || noPlayer
  /\ winner st' = (if noAI then Some sidePlayer
                   else if noPlayer then Some sideAI else winner st)
  /\ (gameOver st = true -> gameOver st' = true)
  /\ (territories g = [] -> gameOver st' = true /\ winner st' = Some sidePlayer).
Proof.
  cbv zeta. destruct (updateGameState_verdict g) as [Hover Hwin].
  split; [exact Hover |]. split; [exact Hwin |]. split.
  - intros H. rewrite Hover, H. reflexivity.
  - intros Hnil. rewrite Hover, Hwin, Hnil. cbn. now rewrite orb_true_r.
Qed.

Lemma updateGameState_twice (g : Game) :
  gameState (updateGameState (updateGameState g)) = gameState (updateGameState g).
Proof.
  pose proof (updateGameState_aggregates_eq (updateGameState g)) as E2.
  pose proof (updateGameState_aggregates_eq g) as E1.
  rewrite updateGameState_territories in E2.
  destruct (updateGameState_verdict (updateGameState g)) as [O2 W2].
  destruct (updateGameState_verdict g) as [O1 W1].
  rewrite updateGameState_territories in O2, W2.
  destruct (updateGameState_frame (updateGameState g)) as (_ & _ & S2 & T2).
  rewrite O1 in O2. rewrite W1 in W2.
  assert (O : gameOver (gameState (updateGameState (updateGameState g)))
              = gameOver (gameState (updateGameState g))).
  { rewrite O2, O1.
    destruct (gameOver (gameState g)), (territoryCount ai (territories g) =? 0),
      (territoryCount player (territories g) =? 0); reflexivity. }
  assert (W : winner (gameState (updateGameState (updateGameState g)))
              = winner (gameState (updateGameState g))).
  { rewrite W2, W1.
    destruct (territoryCount ai (territories g) =? 0),
      (territoryCount player (territories g) =? 0); reflexivity. }
  unfold aggregates in E1, E2. rewrite <- E1 in E2.
  injection E2 as A1 A2 A3 A4.
  destruct (gameState (updateGameState (updateGameState g))),
    (gameState (updateGameState g)); cbn in *. congruence.
Qed.

Lemma updateGameState_of_same (g g' : Game) :
  territories g = territories g' -> gameState g = gameState g' ->
  gameState (updateGameState g) = gameState (updateGameState g').
Proof.
  intros Ht Hs. unfold updateGameState. rewrite Ht, Hs.
  destruct (countBoard (territories g')) as [[[pu au] pt] at_].
  destruct (at_ =? 0); [reflexivity |]. destruct (pt =? 0); reflexivity.
Qed.

(** X4. Recomputing the game state twice is recomputing it once: the
    second [updateGameState] changes neither the game state nor the board. *)
Theorem updateGameState_idempotent (g : Game) :
  gameState (updateGameState (updateGameState g)) = gameState (updateGameState g)
  /\ territories (updateGameState (updateGameState g)) = territories g.
Proof.
  split; [apply updateGameState_twice | now rewrite !updateGameState_territories].
Qed.

Lemma updateGameState_verdict_by_counts_witness :
  gameOver (gameState (updateGameState wonGame)) = true.
Proof.
  exact (proj1 (proj2 (proj2 (updateGameState_verdict_by_counts wonGame))) eq_refl).
Defined.
(** * What the routines leave untouched *)

Lemma map_alter_frame {A} (p : Territory -> A) (f : Territory -> Territory)
      (r : Ref) (ts : list Territory) :
  (forall t, p (f t) = p t) -> map p (alter f r ts) = map p ts.
Proof.
  intros Hp. revert r. induction ts as [| t ts IH]; intros r; [reflexivity |].
  destruct r as [| r]; cbn; [now rewrite Hp |]. f_equal. apply IH.
Qed.

Ltac frame_routine :=
  repeat match goal with
         | |- context [if ?b then _ else _] => destruct b
         end;
  cbn [territories selectedTerritory gameState randomCalls
       onMessage onTerritory setTerritories setSelection setGameState
       setCurrentTurn drawn];
  rewrite ?map_alter_frame by (intros; auto);
  try reflexivity.

Section Frame.

(** A view of a territory that [setUnits] and [setOwner] do not change. *)
Context {A : Type} (p : Territory -> A).
Hypothesis p_setUnits : forall n t, p (setUnits n t) = p t.
Hypothesis p_setOwner : forall o t, p (setOwner o t) = p t.

Variable random : nat -> Q.

Lemma frame_transferUnits (src dst : Ref) (g : Game) :
  map p (territories (transferUnits src dst g)) = map p (territories g).
Proof. unfold transferUnits. frame_routine. Qed.

Lemma frame_executeTransfer (src dst : Ref) (g : Game) :
  map p (territories (executeTransfer src dst g)) = map p (territories g).
Proof. unfold executeTransfer. frame_routine. Qed.

Lemma frame_attackTerritory (att def : Ref) (g : Game) :
  map p (territories (attackTerritory random att def g)) = map p (territories g).
Proof. unfold attackTerritory. frame_routine. Qed.

Lemma frame_executeAttack (src dst : Ref) (g : Game) :
  map p (territories (executeAttack random src dst g)) = map p (territories g).
Proof. unfold executeAttack. frame_routine. Qed.

Lemma frame_executeActions (actions : list AIAction) (g : Game) :
  map p (territories (executeActions random actions g)) = map p (territories g).
Proof.
  revert g. induction actions as [| action actions IH]; intros g; [reflexivity |].
  change (executeActions random (action :: actions) g)
    with (executeActions random actions (executeAction random action g)).
  rewrite IH. unfold executeAction.
  destruct (type action); [apply frame_executeAttack | apply frame_executeTransfer].
Qed.

Lemma frame_executeTurn (advice : option string) (g : Game) :
  map p (territories (executeTurn random advice g)) = map p (territories g).
Proof.
  unfold executeTurn. destruct (Nat.eqb _ 0); [reflexivity |].
  rewrite frame_executeActions. now rewrite announceStrategy_territories.
Qed.

Lemma frame_reinforce (o : Owner) (ts : list Territory) :
  map p (reinforce o ts) = map p ts.
Proof.
  unfold reinforce. rewrite map_map. apply map_ext.
  intros t. destruct (Owner_eqb (owner t) o); [apply p_setUnits | reflexivity].
Qed.

Lemma frame_endPlayerTurn (advice : option string) (g : Game) :
  map p (territories (endPlayerTurn random advice g)) = map p (territories g).
Proof.
  unfold endPlayerTurn. destruct (negb _ || _); [reflexivity |].
  rewrite updateGameState_territories.
  cbn [territories setCurrentTurn setGameState setTerritories].
  rewrite frame_reinforce, frame_executeTurn.
  cbn [territories onMessage setCurrentTurn setGameState].
  rewrite updateGameState_territories.
  cbn [territories onMessage setTerritories]. apply frame_reinforce.
Qed.

Hypothesis p_setSelected : forall b t, p (setSelected b t) = p t.

Lemma frame_handleTerritoryClick (c : Ref) (g : Game) :
  map p (territories (handleTerritoryClick random c g)) = map p (territories g).
Proof.
  unfold handleTerritoryClick.
  destruct (currentTurn (gameState g)); [| reflexivity].
  destruct (selectedTerritory g) as [sel |].
  - destruct (Nat.eqb sel c); [frame_routine |].
    destruct (isAdjacent (territories g) sel c); [| reflexivity].
    rewrite updateGameState_territories.
    cbn [territories setSelection onTerritory setTerritories].
    rewrite map_alter_frame by auto.
    destruct (Owner_eqb _ _); [apply frame_transferUnits | apply frame_attackTerritory].
  - frame_routine.
Qed.

End Frame.

Lemma start_territories (g : Game) : territories (start g) = territories g.
Proof. unfold start. cbn [territories onMessage]. now rewrite updateGameState_territories. Qed.

Lemma countBoard_of_holdings (ts ts' : list Territory) :
  holdings ts = holdings ts' -> countBoard ts = countBoard ts'.
Proof.
  unfold countBoard. generalize (0, 0, 0, 0) as acc.
  revert ts'. induction ts as [| t ts IH]; intros [| t' ts'] acc H;
    try discriminate; [reflexivity |].
  cbn in H. injection H as Ho Hu Hrest.
  cbn [fold_left]. rewrite (IH ts' _ Hrest). f_equal.
  unfold countStep. destruct acc as [[[pu au] pt] at_]. now rewrite Ho, Hu.
Qed.

Section StateFrame.

Variable random : nat -> Q.

Lemma executeTransfer_state (src dst : Ref) (g : Game) :
  selectedTerritory (executeTransfer src dst g) = selectedTerritory g
  /\ gameState (executeTransfer src dst g) = gameState g
  /\ randomCalls (executeTransfer src dst g) = randomCalls g.
Proof. unfold executeTransfer. destruct (0 <? _); repeat split. Qed.

Lemma transferUnits_state (src dst : Ref) (g : Game) :
  selectedTerritory (transferUnits src dst g) = selectedTerritory g
  /\ gameState (transferUnits src dst g) = gameState g
  /\ randomCalls (transferUnits src dst g) = randomCalls g.
Proof. unfold transferUnits. destruct (0 <? _); repeat split. Qed.

Lemma executeAttack_state (src dst : Ref) (g : Game) :
  selectedTerritory (executeAttack random src dst g) = selectedTerritory g
  /\ gameState (executeAttack random src dst g) = gameState g
  /\ (randomCalls (executeAttack random src dst g) = randomCalls g
      \/ randomCalls (executeAttack random src dst g) = (randomCalls g + 2)%nat).
Proof.
  unfold executeAttack. destruct (_ <=? 1); [repeat split; now left |].
  destruct (_ <? _); repeat split; now right.
Qed.

Lemma attackTerritory_state (att def : Ref) (g : Game) :
  selectedTerritory (attackTerritory random att def g) = selectedTerritory g
  /\ gameState (attackTerritory random att def g) = gameState g
  /\ (randomCalls (attackTerritory random att def g) = randomCalls g
      \/ randomCalls (attackTerritory random att def g) = (randomCalls g + 2)%nat).
Proof.
  unfold attackTerritory. destruct (_ <=? 1); [repeat split; now left |].
  destruct (_ <? _); repeat split; now right.
Qed.

Lemma executeActions_state (actions : list AIAction) (g : Game) :
  selectedTerritory (executeActions random actions g) = selectedTerritory g
  /\ gameState (executeActions random actions g) = gameState g
  /\ exists k, (k <= length actions)%nat
               /\ randomCalls (executeActions random actions g)
                  = (randomCalls g + 2 * k)%nat.
Proof.
  revert g. induction actions as [| action actions IH]; intros g.
  - repeat split. exists 0%nat. cbn. lia.
  - change (executeActions random (action :: actions) g)
      with (executeActions random actions (executeAction random action g)).
    destruct (IH (executeAction random action g)) as (Hs & Hg & k & Hk & Hr).
    rewrite Hs, Hg, Hr. unfold executeAction.
    destruct (type action).
    + destruct (executeAttack_state (from action) (to action) g) as (-> & -> & [-> | ->]);
        repeat split; [exists k | exists (S k)]; cbn [length]; lia.
    + destruct (executeTransfer_state (from action) (to action) g) as (-> & -> & ->).
      repeat split. exists k. cbn [length]. lia.
Qed.

Lemma executeTurn_state (advice : option string) (g : Game) :
  selectedTerritory (executeTurn random advice g) = selectedTerritory g
  /\ gameState (executeTurn random advice g) = gameState g
  /\ exists k, (k <= 3)%nat
               /\ randomCalls (executeTurn random advice g)
                  = (randomCalls g + 2 * k)%nat.
Proof.
  unfold executeTurn. destruct (Nat.eqb _ 0).
  - repeat split. exists 0%nat. lia.
  - destruct (executeActions_state
                (actionsToExecute (territories (announceStrategy advice g))
                   (strategyText advice))
                (announceStrategy advice g)) as (Hs & Hg & k & Hk & Hr).
    rewrite Hs, Hg, Hr.
    assert (Hlen : (length (actionsToExecute (territories (announceStrategy advice g))
                              (strategyText advice)) <= 3)%nat)
      by (unfold actionsToExecute; rewrite length_take; lia).
    destruct advice; repeat split; exists k; (split; [lia | reflexivity]).
Qed.

End StateFrame.

Lemma highlights_setSelected (b : bool) (r : Ref) (ts : list Territory) :
  highlights (alter (setSelected b) r ts) = <[r := b]> (highlights ts).
Proof.
  unfold highlights. revert r. induction ts as [| t ts IH]; intros r; [reflexivity |].
  destruct r as [| r]; cbn; [reflexivity |]. f_equal. apply IH.
Qed.

Lemma getOwner_player_valid (ts : list Territory) (r : Ref) :
  getOwner ts r = player -> (r < length ts)%nat.
Proof.
  unfold getOwner. intros H. apply lookup_lt_is_Some.
  destruct (ts !! r); [eauto | discriminate].
Qed.

Lemma highlight_select (c : Ref) (hl : list bool) :
  (forall i, hl !! i = Some true <-> None = Some i) ->
  (c < length hl)%nat ->
  forall i, <[c := true]> hl !! i = Some true <-> Some c = Some i.
Proof.
  intros Hinv Hc i. rewrite list_lookup_insert_Some. split.
  - intros [(-> & _) | (_ & H)]; [reflexivity |].
    apply Hinv in H. discriminate.
  - intros [= ->]. left. repeat split. exact Hc.
Qed.

Lemma highlight_clear (sel : Ref) (hl : list bool) :
  (forall i, hl !! i = Some true <-> Some sel = Some i) ->
  forall i, <[sel := false]> hl !! i = Some true <-> @None nat = Some i.
Proof.
  intros Hinv i. rewrite list_lookup_insert_Some. split; [| discriminate].
  intros [(_ & H & _) | (Hne & H)]; [discriminate |].
  apply Hinv in H. congruence.
Qed.

Section Invariants.

Variable random : nat -> Q.

Lemma handleTerritoryClick_highlight (c : Ref) (g : Game) :
  highlightConsistent g -> highlightConsistent (handleTerritoryClick random c g).
Proof.
  unfold highlightConsistent, handleTerritoryClick. intros Hinv.
  destruct (currentTurn (gameState g)); [| exact Hinv].
  destruct (selectedTerritory g) as [sel |] eqn:Esel.
  - destruct (Nat.eqb_spec sel c) as [-> | Hne].
    + intros i. cbn [territories selectedTerritory onMessage setSelection onTerritory setTerritories].
      rewrite highlights_setSelected. revert i. now apply highlight_clear.
    + destruct (isAdjacent (territories g) sel c);
        [| intros i; cbn [territories selectedTerritory onMessage];
           rewrite ?Esel; apply Hinv].
      rewrite updateGameState_territories.
      destruct (updateGameState_frame
                  (setSelection None
                     (onTerritory sel (setSelected false)
                        (if Owner_eqb (getOwner (territories g) c) player
                         then transferUnits sel c g
                         else attackTerritory random sel c g)))) as (-> & _).
      cbn [territories selectedTerritory setSelection onTerritory setTerritories].
      rewrite highlights_setSelected. apply highlight_clear.
      unfold highlights.
      destruct (Owner_eqb _ _);
        [rewrite (frame_transferUnits selected) | rewrite (frame_attackTerritory selected)];
        auto.
  - destruct (Owner_eqb (getOwner (territories g) c) player) eqn:Eown;
      [| intros i; cbn [territories selectedTerritory onMessage]; rewrite ?Esel; apply Hinv].
    apply Owner_eqb_eq, getOwner_player_valid in Eown.
    cbn [territories selectedTerritory onMessage setSelection onTerritory setTerritories].
    rewrite highlights_setSelected. apply highlight_select; [exact Hinv |].
    unfold highlights. now rewrite length_map.
Qed.

Lemma endPlayerTurn_selection (advice : option string) (g : Game) :
  selectedTerritory (endPlayerTurn random advice g) = selectedTerritory g.
Proof.
  unfold endPlayerTurn. destruct (negb _ || _); [reflexivity |].
  match goal with
  | |- selectedTerritory (updateGameState ?x) = _ =>
    destruct (updateGameState_frame x) as (-> & _)
  end.
  cbn [selectedTerritory setCurrentTurn setGameState setTerritories].
  destruct (executeTurn_state random advice
              (onMessage MsgAIThinking
                 (setCurrentTurn sideAI
                    (updateGameState
                       (onMessage MsgTurnEnded
                          (setTerritories (reinforce player (territories g)) g))))))
    as (-> & _).
  cbn [selectedTerritory onMessage setCurrentTurn setGameState].
  match goal with
  | |- selectedTerritory (updateGameState ?x) = _ =>
    destruct (updateGameState_frame x) as (-> & _)
  end.
  reflexivity.
Qed.

Lemma start_selection (g : Game) : selectedTerritory (start g) = selectedTerritory g.
Proof.
  unfold start. cbn [selectedTerritory onMessage].
  match goal with
  | |- selectedTerritory (updateGameState ?x) = _ =>
    destruct (updateGameState_frame x) as (-> & _)
  end.
  reflexivity.
Qed.

End Invariants.

(** * Invariants of a game in play *)

Lemma play_snoc (random : nat -> Q) (cs : list Command) (c : Command) (g : Game) :
  play random (cs ++ [c]) g = run random c (play random cs g).
Proof. unfold play. now rewrite fold_left_app. Qed.

Lemma play_invariant (random : nat -> Q) (P : Game -> Prop) :
  (forall c g, P g -> P (run random c g)) ->
  forall cs g, P g -> P (play random cs g).
Proof.
  intros Hstep cs. induction cs as [| c cs IH]; intros g Hg; [exact Hg |].
  apply IH, Hstep, Hg.
Qed.

Lemma newGame_territories : territories newGame = createGameBoard.
Proof. unfold newGame. now rewrite updateGameState_territories. Qed.

Lemma newGame_selection : selectedTerritory newGame = None.
Proof. reflexivity. Qed.

Section Play.

Variable random : nat -> Q.

Lemma run_identities (c : Command) (g : Game) :
  identities (territories (run random c g)) = identities (territories g).
Proof.
  unfold identities. destruct c as [| territory | advice]; cbn [run].
  - now rewrite start_territories.
  - now apply frame_handleTerritoryClick.
  - now apply frame_endPlayerTurn.
Qed.

Lemma play_identities (cs : list Command) (g : Game) :
  identities (territories (play random cs g)) = identities (territories g).
Proof.
  revert g. induction cs as [| c cs IH]; intros g; [reflexivity |].
  cbn [play fold_left]. fold (play random cs (run random c g)).
  rewrite IH. apply run_identities.
Qed.

Lemma endPlayerTurn_highlights (advice : option string) (g : Game) :
  highlights (territories (endPlayerTurn random advice g)) = highlights (territories g).
Proof. now apply frame_endPlayerTurn. Qed.

Lemma run_highlight (c : Command) (g : Game) :
  highlightConsistent g -> highlightConsistent (run random c g).
Proof.
  intros Hinv. destruct c as [| territory | advice]; cbn [run].
  - unfold highlightConsistent. now rewrite start_territories, start_selection.
  - now apply handleTerritoryClick_highlight.
  - unfold highlightConsistent.
    now rewrite endPlayerTurn_highlights, endPlayerTurn_selection.
Qed.

Lemma newGame_highlight : highlightConsistent newGame.
Proof.
  unfold highlightConsistent. rewrite newGame_territories, newGame_selection.
  intros i. split; [| discriminate].
  intros H. exfalso.
  assert (Hall : Forall (fun b => b = false) (highlights createGameBoard))
    by (vm_compute; repeat constructor).
  rewrite Forall_lookup in Hall. apply Hall in H. discriminate.
Qed.

End Play.

(** X5. Territories are never added, removed, renamed or moved: whatever
    the commands played, the names and positions on the board are those it
    had before, and a new game has those of [createGameBoard], 21
    territories. *)
Theorem play_keeps_the_board (random : nat -> Q) (cs : list Command) (g : Game) :
  identities (territories (play random cs g)) = identities (territories g)
  /\ length (territories (play random cs g)) = length (territories g)
  /\ identities (territories (play random cs newGame)) = identities createGameBoard
  /\ length (territories (play random cs newGame)) = 21%nat.
Proof.
  assert (Hlen : forall ts ts', identities ts = identities ts' -> length ts = length ts').
  { intros ts ts' H. apply (f_equal length) in H. unfold identities in H.
    now rewrite !length_map in H. }
  split; [apply play_identities |]. split; [apply Hlen, play_identities |].
  split.
  - now rewrite play_identities, newGame_territories.
  - rewrite (Hlen _ _ (play_identities random cs newGame)), newGame_territories.
    reflexivity.
Qed.

(** X6. Ending the turn leaves the selection as it is: the selected
    territory and the highlight flags after [endPlayerTurn], automated turn
    included, are those before it, whatever happened to the selected
    territory meanwhile. *)
Theorem endPlayerTurn_keeps_selection
  (random : nat -> Q) (advice : option string) (g : Game) :
  selectedTerritory (endPlayerTurn random advice g) = selectedTerritory g
  /\ highlights (territories (endPlayerTurn random advice g))
     = highlights (territories g)
  /\ selectedTerritory (executeTurn random advice g) = selectedTerritory g
  /\ highlights (territories (executeTurn random advice g))
     = highlights (territories g).
Proof.
  split; [apply endPlayerTurn_selection |].
  split; [apply endPlayerTurn_highlights |].
  split; [apply executeTurn_state |].
  unfold highlights. now apply frame_executeTurn.
Qed.

(** X7. In a game played from a new game the highlighted territories are
    exactly the selected one: a territory has its highlight flag set if and
    only if it is the selection. *)
Theorem highlight_follows_selection (random : nat -> Q) (cs : list Command) (i : Ref) :
  let g := play random cs newGame in
  highlights (territories g) !! i = Some true <-> selectedTerritory g = Some i.
Proof.
  cbv zeta. revert i.
  apply (play_invariant random highlightConsistent (run_highlight random) cs newGame).
  apply newGame_highlight.
Qed.

Section StateInvariant.

Variable random : nat -> Q.

(** A property of the game state kept by [updateGameState] and blind to
    the started flag and to the turn. *)
Variable P : GameState -> Prop.
Hypothesis P_update : forall g, P (gameState g) -> P (gameState (updateGameState g)).
Hypothesis P_flags :
  forall st started turn,
    P st ->
    P (mkGameState started (gameOver st) (winner st) turn
         (playerUnits st) (aiUnits st) (playerTerritories st) (aiTerritories st)).

Lemma start_state_invariant (g : Game) : P (gameState g) -> P (gameState (start g)).
Proof.
  intros H. unfold start. cbn [gameState onMessage]. apply P_update.
  cbn [gameState setGameState]. now apply P_flags.
Qed.

Lemma handleTerritoryClick_state_invariant (c : Ref) (g : Game) :
  P (gameState g) -> P (gameState (handleTerritoryClick random c g)).
Proof.
  intros H. unfold handleTerritoryClick.
  destruct (currentTurn (gameState g)); [| exact H].
  destruct (selectedTerritory g) as [sel |].
  - destruct (Nat.eqb sel c); [exact H |].
    destruct (isAdjacent (territories g) sel c); [| exact H].
    apply P_update. cbn [gameState setSelection onTerritory setTerritories].
    destruct (Owner_eqb _ _).
    + now rewrite (proj1 (proj2 (transferUnits_state sel c g))).
    + now rewrite (proj1 (proj2 (attackTerritory_state random sel c g))).
  - destruct (Owner_eqb _ _); exact H.
Qed.

Lemma endPlayerTurn_state_invariant (advice : option string) (g : Game) :
  P (gameState g) -> P (gameState (endPlayerTurn random advice g)).
Proof.
  intros H. unfold endPlayerTurn. destruct (negb _ || _); [exact H |].
  apply P_update. unfold setCurrentTurn at 1.
  cbn [gameState setGameState setTerritories]. apply P_flags.
  rewrite (proj1 (proj2 (executeTurn_state random advice _))).
  cbn [gameState onMessage]. unfold setCurrentTurn.
  cbn [gameState setGameState]. apply P_flags.
  apply P_update. exact H.
Qed.

Lemma run_state_invariant (c : Command) (g : Game) :
  P (gameState g) -> P (gameState (run random c g)).
Proof.
  destruct c; cbn [run];
    [apply start_state_invariant | apply handleTerritoryClick_state_invariant
     | apply endPlayerTurn_state_invariant].
Qed.

Lemma play_state_invariant (cs : list Command) (g : Game) :
  P (gameState g) -> P (gameState (play random cs g)).
Proof.
  apply (play_invariant random (fun g' => P (gameState g'))).
  intros c g'. apply run_state_invariant.
Qed.

End StateInvariant.

Lemma updateGameState_keeps_over (g : Game) :
  gameOver (gameState g) = true -> gameOver (gameState (updateGameState g)) = true.
Proof.
  intros H. rewrite (proj1 (updateGameState_verdict g)), H. reflexivity.
Qed.

Lemma updateGameState_keeps_verdict (g : Game) :
  verdictConsistent (gameState g) -> verdictConsistent (gameState (updateGameState g)).
Proof.
  unfold verdictConsistent. intros H.
  destruct (updateGameState_verdict g) as [-> ->].
  destruct (territoryCount ai (territories g) =? 0).
  - rewrite orb_true_r. cbn. split; [discriminate | reflexivity].
  - destruct (territoryCount player (territories g) =? 0).
    + rewrite orb_true_r. split; [discriminate | reflexivity].
    + now rewrite !orb_false_r.
Qed.

Lemma updateGameState_score (g : Game) : scoreConsistent (updateGameState g).
Proof.
  unfold scoreConsistent.
  now rewrite updateGameState_aggregates_eq, updateGameState_territories.
Qed.

Lemma run_score (random : nat -> Q) (c : Command) (g : Game) :
  scoreConsistent g -> scoreConsistent (run random c g).
Proof.
  intros H. destruct c as [| territory | advice]; cbn [run].
  - unfold start. apply updateGameState_score.
  - unfold handleTerritoryClick.
    destruct (currentTurn (gameState g)); [| exact H].
    destruct (selectedTerritory g) as [sel |].
    + destruct (Nat.eqb sel territory).
      * unfold scoreConsistent in *.
        cbn [gameState territories onMessage setSelection onTerritory setTerritories].
        rewrite H. apply countBoard_of_holdings. symmetry.
        apply holdings_alter_setSelected.
      * destruct (isAdjacent (territories g) sel territory); [| exact H].
        apply updateGameState_score.
    + destruct (Owner_eqb _ _); [| exact H].
      unfold scoreConsistent in *.
      cbn [gameState territories onMessage setSelection onTerritory setTerritories].
      rewrite H. apply countBoard_of_holdings. symmetry.
      apply holdings_alter_setSelected.
  - unfold endPlayerTurn. destruct (negb _ || _); [exact H |].
    apply updateGameState_score.
Qed.

(** X8. The game-over flag is final: once it is set, no sequence of
    commands (start, clicks, ends of turn) clears it. *)
Theorem game_over_is_final (random : nat -> Q) (cs : list Command) (g : Game) :
  gameOver (gameState g) = true ->
  gameOver (gameState (play random cs g)) = true.
Proof.
  apply (play_state_invariant random (fun st => gameOver st = true)).
  - apply updateGameState_keeps_over.
  - intros st started turn H. exact H.
Qed.

Lemma game_over_is_final_witness :
  gameOver (gameState (play zeroDraws [Click 20; Click 16; EndTurn None; Start]%nat wonGame))
  = true.
Proof.
  apply (game_over_is_final zeroDraws [Click 20; Click 16; EndTurn None; Start]%nat wonGame).
  vm_compute. reflexivity.
Defined.

(** X9. In a game played from a new game, the game is over exactly when
    a winner is recorded. *)
Theorem winner_iff_game_over (random : nat -> Q) (cs : list Command) :
  let st := gameState (play random cs newGame) in
  gameOver st = true <-> winner st <> None.
Proof.
  cbv zeta.
  apply (play_state_invariant random verdictConsistent).
  - apply updateGameState_keeps_verdict.
  - intros st started turn H. exact H.
  - unfold newGame. apply updateGameState_keeps_verdict.
    unfold verdictConsistent. cbn. split; [discriminate | congruence].
Qed.

(** X10. In a game played from a new game the score of the game state is
    the score of the board: the units of each side are the sum of the units
    of the territories it owns, and its territory count their number. *)
Theorem score_matches_board (random : nat -> Q) (cs : list Command) :
  let g := play random cs newGame in
  playerUnits (gameState g) = unitsOf player (territories g)
  /\ aiUnits (gameState g) = unitsOf ai (territories g)
  /\ playerTerritories (gameState g) = territoryCount player (territories g)
  /\ aiTerritories (gameState g) = territoryCount ai (territories g).
Proof.
  cbv zeta.
  assert (H : scoreConsistent (play random cs newGame)).
  { apply (play_invariant random scoreConsistent (run_score random)).
    unfold newGame. apply updateGameState_score. }
  unfold scoreConsistent, aggregates in H. rewrite countBoard_sums in H.
  injection H as H1 H2 H3 H4. repeat split; assumption.
Qed.

(** * Who can take what *)

Lemma ownerDrift_refl (o : Owner) (t : Territory) : ownerDrift o t t.
Proof. now left. Qed.

Lemma ownerDrift_trans (o : Owner) (t1 t2 t3 : Territory) :
  ownerDrift o t1 t2 -> ownerDrift o t2 t3 -> ownerDrift o t1 t3.
Proof. unfold ownerDrift. intros [H1 | H1] [H2 | H2]; rewrite ?H2, ?H1; auto. Qed.

Lemma drift_refl (o : Owner) (ts : list Territory) : Forall2 (ownerDrift o) ts ts.
Proof. induction ts; constructor; [apply ownerDrift_refl | assumption]. Qed.

Lemma drift_trans (o : Owner) (ts1 ts2 ts3 : list Territory) :
  Forall2 (ownerDrift o) ts1 ts2 -> Forall2 (ownerDrift o) ts2 ts3 ->
  Forall2 (ownerDrift o) ts1 ts3.
Proof.
  intros H12. revert ts3. induction H12 as [| t1 t2 ts1 ts2 Ht H12 IH]; intros ts3 H23.
  - inversion H23. constructor.
  - inversion H23 as [| ? t3 ? ts3' Ht' H23']; subst. constructor.
    + exact (ownerDrift_trans o t1 t2 t3 Ht Ht').
    + now apply IH.
Qed.

Lemma drift_alter (o : Owner) (f : Territory -> Territory) (r : Ref) (ts : list Territory) :
  (forall t, ownerDrift o t (f t)) -> Forall2 (ownerDrift o) ts (alter f r ts).
Proof.
  intros Hf. revert r. induction ts as [| t ts IH]; intros r; [constructor |].
  destruct r as [| r]; cbn; constructor; auto using ownerDrift_refl, drift_refl.
Qed.

Lemma drift_setUnits (o : Owner) (n : Z) (t : Territory) : ownerDrift o t (setUnits n t).
Proof. now left. Qed.

Lemma drift_setSelected (o : Owner) (b : bool) (t : Territory) :
  ownerDrift o t (setSelected b t).
Proof. now left. Qed.

Lemma drift_setOwner (o : Owner) (t : Territory) : ownerDrift o t (setOwner o t).
Proof. now right. Qed.

Lemma drift_lookup (o : Owner) (ts ts' : list Territory) (i : Ref) :
  Forall2 (ownerDrift o) ts ts' ->
  getOwner ts' i = getOwner ts i \/ getOwner ts' i = o.
Proof.
  intros H. revert i. induction H as [| t t' ts ts' Ht H IH]; intros i; [now left |].
  destruct i as [| i]; [exact Ht | apply IH].
Qed.

Ltac drift_routine :=
  repeat match goal with
         | |- context [if ?b then _ else _] => destruct b
         end;
  cbn [territories onMessage onTerritory setTerritories setSelection setGameState
       setCurrentTurn drawn];
  repeat first
    [ apply drift_refl
    | apply drift_alter;
      first [apply drift_setUnits | apply drift_setOwner | apply drift_setSelected]
    | eapply drift_trans;
      [| apply drift_alter;
         first [apply drift_setUnits | apply drift_setOwner | apply drift_setSelected]] ].

Section Drift.

Variable random : nat -> Q.

Lemma drift_transferUnits (o : Owner) (src dst : Ref) (g : Game) :
  Forall2 (ownerDrift o) (territories g) (territories (transferUnits src dst g)).
Proof. unfold transferUnits. drift_routine. Qed.

Lemma drift_executeTransfer (o : Owner) (src dst : Ref) (g : Game) :
  Forall2 (ownerDrift o) (territories g) (territories (executeTransfer src dst g)).
Proof. unfold executeTransfer. drift_routine. Qed.

Lemma drift_attackTerritory (att def : Ref) (g : Game) :
  Forall2 (ownerDrift player) (territories g)
    (territories (attackTerritory random att def g)).
Proof. unfold attackTerritory. drift_routine. Qed.

Lemma drift_executeAttack (src dst : Ref) (g : Game) :
  Forall2 (ownerDrift ai) (territories g) (territories (executeAttack random src dst g)).
Proof. unfold executeAttack. drift_routine. Qed.

Lemma drift_handleTerritoryClick (c : Ref) (g : Game) :
  Forall2 (ownerDrift player) (territories g)
    (territories (handleTerritoryClick random c g)).
Proof.
  unfold handleTerritoryClick.
  destruct (currentTurn (gameState g)); [| apply drift_refl].
  destruct (selectedTerritory g) as [sel |].
  - destruct (Nat.eqb sel c); [drift_routine |].
    destruct (isAdjacent (territories g) sel c); [| apply drift_refl].
    rewrite updateGameState_territories.
    cbn [territories setSelection onTerritory setTerritories].
    eapply drift_trans; [| apply drift_alter, drift_setSelected].
    destruct (Owner_eqb _ _); [apply drift_transferUnits | apply drift_attackTerritory].
  - drift_routine.
Qed.

Lemma drift_executeActions (actions : list AIAction) (g : Game) :
  Forall2 (ownerDrift ai) (territories g) (territories (executeActions random actions g)).
Proof.
  revert g. induction actions as [| action actions IH]; intros g; [apply drift_refl |].
  change (executeActions random (action :: actions) g)
    with (executeActions random actions (executeAction random action g)).
  eapply drift_trans; [| apply IH]. unfold executeAction.
  destruct (type action); [apply drift_executeAttack | apply drift_executeTransfer].
Qed.

Lemma drift_executeTurn (advice : option string) (g : Game) :
  Forall2 (ownerDrift ai) (territories g) (territories (executeTurn random advice g)).
Proof.
  unfold executeTurn. destruct (Nat.eqb _ 0); [apply drift_refl |].
  eapply drift_trans; [| apply drift_executeActions].
  rewrite announceStrategy_territories. apply drift_refl.
Qed.

Lemma drift_reinforce (o side : Owner) (ts : list Territory) :
  Forall2 (ownerDrift o) ts (reinforce side ts).
Proof.
  unfold reinforce. induction ts as [| t ts IH]; cbn [map]; constructor; [| exact IH].
  destruct (Owner_eqb _ _); [apply drift_setUnits | apply ownerDrift_refl].
Qed.

Lemma drift_endPlayerTurn (advice : option string) (g : Game) :
  Forall2 (ownerDrift ai) (territories g) (territories (endPlayerTurn random advice g)).
Proof.
  unfold endPlayerTurn. destruct (negb _ || _); [apply drift_refl |].
  rewrite updateGameState_territories.
  cbn [territories setCurrentTurn setGameState setTerritories].
  eapply drift_trans; [| apply drift_reinforce].
  eapply drift_trans; [| apply drift_executeTurn].
  cbn [territories onMessage setCurrentTurn setGameState].
  rewrite updateGameState_territories.
  cbn [territories onMessage setTerritories]. apply drift_reinforce.
Qed.

End Drift.

(** X11. A side loses no territory by its own action, and no territory
    ever becomes neutral: after a click every territory has the owner it
    had or belongs to the human side; after the automated turn, and after
    the whole end of turn, every territory has the owner it had or belongs
    to the automated side. *)
Theorem owners_drift_to_the_acting_side
  (random : nat -> Q) (advice : option string) (c : Ref) (g : Game) (i : Ref) :
  let before := getOwner (territories g) i in
  let clicked := getOwner (territories (handleTerritoryClick random c g)) i in
  let automated := getOwner (territories (executeTurn random advice g)) i in
  let ended := getOwner (territories (endPlayerTurn random advice g)) i in
  (clicked = before \/ clicked = player)
  /\ (automated = before \/ automated = ai)
  /\ (ended = before \/ ended = ai)
  /\ (before = player -> clicked = player)
  /\ (before = ai -> automated = ai /\ ended = ai)
  /\ (before <> neutral -> clicked <> neutral /\ automated <> neutral /\ ended <> neutral).
Proof.
  cbv zeta.
  pose proof (drift_lookup player _ _ i (drift_handleTerritoryClick random c g)) as Hc.
  pose proof (drift_lookup ai _ _ i (drift_executeTurn random advice g)) as Ha.
  pose proof (drift_lookup ai _ _ i (drift_endPlayerTurn random advice g)) as He.
  repeat split; try assumption.
  - intros H. destruct Hc as [-> | ->]; [exact H | reflexivity].
  - destruct Ha as [-> | ->]; [assumption | reflexivity].
  - destruct He as [-> | ->]; [assumption | reflexivity].
  - destruct Hc as [-> | ->]; [assumption | discriminate].
  - destruct Ha as [-> | ->]; [assumption | discriminate].
  - destruct He as [-> | ->]; [assumption | discriminate].
Qed.

Lemma owners_drift_to_the_acting_side_witness :
  getOwner (territories (handleTerritoryClick zeroDraws 9 openingGame)) 4 = player.
Proof.
  exact (proj1 (proj2 (proj2 (proj2
           (owners_drift_to_the_acting_side zeroDraws None 9 openingGame 4)))) eq_refl).
Defined.

(** X12. Only combat draws random numbers, two per attack carried out: a
    start draws none, a click draws none or two, the automated turn and
    the whole end of turn draw an even number, six at most. *)
Theorem draws_consumed
  (random : nat -> Q) (advice : option string) (c : Ref) (g : Game) :
  randomCalls (start g) = randomCalls g
  /\ (randomCalls (handleTerritoryClick random c g) = randomCalls g
      \/ randomCalls (handleTerritoryClick random c g) = (randomCalls g + 2)%nat)
  /\ (exists k, (k <= 3)%nat
        /\ randomCalls (executeTurn random advice g) = (randomCalls g + 2 * k)%nat)
  /\ (exists k, (k <= 3)%nat
        /\ randomCalls (endPlayerTurn random advice g) = (randomCalls g + 2 * k)%nat).
Proof.
  split.
  { unfold start. cbn [randomCalls onMessage].
    now rewrite (proj1 (proj2 (updateGameState_frame _))). }
  split.
  { unfold handleTerritoryClick.
    destruct (currentTurn (gameState g)); [| now left].
    destruct (selectedTerritory g) as [sel |].
    - destruct (Nat.eqb sel c); [now left |].
      destruct (isAdjacent (territories g) sel c); [| now left].
      rewrite (proj1 (proj2 (updateGameState_frame _))).
      cbn [randomCalls setSelection onTerritory setTerritories].
      destruct (Owner_eqb _ _).
      + left. apply transferUnits_state.
      + apply attackTerritory_state.
    - destruct (Owner_eqb _ _); now left. }
  split; [apply executeTurn_state |].
  unfold endPlayerTurn. destruct (negb _ || _); [exists 0%nat; split; lia |].
  rewrite (proj1 (proj2 (updateGameState_frame _))).
  cbn [randomCalls setCurrentTurn setGameState setTerritories].
  match goal with
  | |- context [executeTurn random advice ?x] =>
    destruct (executeTurn_state random advice x) as (_ & _ & k & Hk & ->)
  end.
  exists k. split; [exact Hk |].
  cbn [randomCalls onMessage setCurrentTurn setGameState].
  rewrite (proj1 (proj2 (updateGameState_frame _))). reflexivity.
Qed.

(** * Combat on particular boards *)










Section Combat.

Variable random : nat -> Q.
Variable g : Game.
Variables att def : Ref.
Variables a d a' d' : Territory.

Hypothesis Ha : territories g !! att = Some a.
Hypothesis Hd : territories g !! def = Some d.
Hypothesis Hne : att <> def.
Hypothesis Hdn : 0 <= units d.
Hypothesis Hr2 : isDraw (random (S (randomCalls g))).



End Combat.







(** * Adjacency during play *)

Lemma getPosition_of_identities (ts ts' : list Territory) (r : Ref) :
  identities ts = identities ts' -> getPosition ts r = getPosition ts' r.
Proof.
  unfold identities, getPosition. intros H.
  apply (f_equal (fun l => l !! r)) in H. rewrite !list_lookup_fmap in H.
  destruct (ts !! r) as [t |], (ts' !! r) as [t' |]; cbn in H; try discriminate;
    [| reflexivity].
  injection H as _ Hx Hz. cbn. now rewrite Hx, Hz.
Qed.

Lemma findAdjacentTerritories_of_identities (ts ts' : list Territory) (r : Ref) :
  identities ts = identities ts' ->
  findAdjacentTerritories ts r = findAdjacentTerritories ts' r.
Proof.
  intros H. unfold findAdjacentTerritories, allRefs.
  assert (Hlen : length ts = length ts').
  { apply (f_equal length) in H. unfold identities in H. now rewrite !length_map in H. }
  rewrite Hlen. apply filter_ext. intros t.
  now rewrite (getPosition_of_identities ts ts' r H), (getPosition_of_identities ts ts' t H).
Qed.

(** X16. Adjacency never changes: in a game played from a new game,
    [isAdjacent] and [findAdjacentTerritories] answer as they do on the
    board of [createGameBoard], whatever was captured, moved or selected. *)
Theorem adjacency_is_fixed (random : nat -> Q) (cs : list Command) (i j : Ref) :
  let ts := territories (play random cs newGame) in
  isAdjacent ts i j = isAdjacent createGameBoard i j
  /\ findAdjacentTerritories ts i = findAdjacentTerritories createGameBoard i.
Proof.
  cbv zeta.
  assert (H : identities (territories (play random cs newGame))
              = identities createGameBoard)
    by (now rewrite play_identities, newGame_territories).
  split.
  - unfold isAdjacent. now rewrite !(getPosition_of_identities _ _ _ H).
  - now apply findAdjacentTerritories_of_identities.
Qed.

(** X17. [start] is no restart: it sets the started flag, gives the turn
    to the human side and recomputes the score, but leaves the board and
    the selection as they are and keeps a game that is over over; a second
    [start] changes nothing of the game state. *)
Theorem start_is_no_restart (g : Game) :
  territories (start g) = territories g
  /\ selectedTerritory (start g) = selectedTerritory g
  /\ gameStarted (gameState (start g)) = true
  /\ currentTurn (gameState (start g)) = sidePlayer
  /\ (gameOver (gameState g) = true -> gameOver (gameState (start g)) = true)
  /\ gameState (start (start g)) = gameState (start g).
Proof.
  split; [apply start_territories |]. split; [apply start_selection |].
  assert (Hs : forall g', gameStarted (gameState (start g')) = true
                          /\ currentTurn (gameState (start g')) = sidePlayer).
  { intros g'. unfold start. cbn [gameState onMessage].
    destruct (updateGameState_frame
                (setGameState
                   (mkGameState true (gameOver (gameState g')) (winner (gameState g'))
                      sidePlayer (playerUnits (gameState g')) (aiUnits (gameState g'))
                      (playerTerritories (gameState g')) (aiTerritories (gameState g')))
                   g')) as (_ & _ & -> & ->).
    split; reflexivity. }
  split; [apply Hs |]. split; [apply Hs |]. split.
  - intros H. unfold start. cbn [gameState onMessage].
    apply updateGameState_keeps_over. exact H.
  - destruct (Hs g) as [H1 H2].
    unfold start at 1. cbn [gameState onMessage].
    set (g1 := start g) in *.
    assert (E : setGameState
                  (mkGameState true (gameOver (gameState g1)) (winner (gameState g1))
                     sidePlayer (playerUnits (gameState g1)) (aiUnits (gameState g1))
                     (playerTerritories (gameState g1)) (aiTerritories (gameState g1)))
                  g1 = g1).
    { destruct g1 as [ts sel st ms rc]. cbn in *. destruct st. cbn in *. now subst. }
    rewrite E. subst g1.
    rewrite (updateGameState_of_same (start g)
               (updateGameState
                  (setGameState
                     (mkGameState true (gameOver (gameState g)) (winner (gameState g))
                        sidePlayer (playerUnits (gameState g)) (aiUnits (gameState g))
                        (playerTerritories (gameState g)) (aiTerritories (gameState g)))
                     g))) by reflexivity.
    apply updateGameState_twice.
Qed.

Lemma start_is_no_restart_witness : gameOver (gameState (start wonGame)) = true.
Proof.
  exact (proj1 (proj2 (proj2 (proj2 (proj2 (start_is_no_restart wonGame))))) eq_refl).
Defined.

(** * The confidence of a candidate action *)









(** ** Letter case *)

Lemma evaluate_of_lowercase (ts : list Territory) (s1 s2 : string) :
  toLowerCase s1 = toLowerCase s2 ->
  (forall src dst, evaluateAttack ts src dst s1 = evaluateAttack ts src dst s2)
  /\ (forall src dst, evaluateTransfer ts src dst s1 = evaluateTransfer ts src dst s2).
Proof.
  intros H. split; intros src dst; unfold evaluateAttack, evaluateTransfer;
    cbv zeta; now rewrite H.
Qed.

Lemma possibleActions_ext (ts : list Territory) (s1 s2 : string) :
  (forall src dst, (dst < length ts)%nat ->
                   evaluateAttack ts src dst s1 = evaluateAttack ts src dst s2) ->
  (forall src dst, (dst < length ts)%nat ->
                   evaluateTransfer ts src dst s1 = evaluateTransfer ts src dst s2) ->
  possibleActions ts s1 = possibleActions ts s2.
Proof.
  intros Ha Ht. unfold possibleActions. apply flat_map_ext. intros src.
  unfold actionsFrom. destruct (_ <=? 1); [reflexivity |].
  apply map_ext_in. intros dst Hdst.
  apply findAdjacentTerritories_spec in Hdst. destruct Hdst as (Hlt & _).
  destruct (Owner_eqb _ _); [now rewrite Ht | now rewrite Ha].
Qed.

(** X20. The advisor's text is read without regard to letter case: two
    texts with the same lower-case form give every attack and every
    transfer the same confidence, hence the same candidates and the same
    actions to execute. *)
Theorem advice_is_case_insensitive (ts : list Territory) (s1 s2 : string) :
  toLowerCase s1 = toLowerCase s2 ->
  (forall src dst, evaluateAttack ts src dst s1 = evaluateAttack ts src dst s2)
  /\ (forall src dst, evaluateTransfer ts src dst s1 = evaluateTransfer ts src dst s2)
  /\ possibleActions ts s1 = possibleActions ts s2
  /\ actionsToExecute ts s1 = actionsToExecute ts s2.
Proof.
  intros H. destruct (evaluate_of_lowercase ts s1 s2 H) as [Ha Ht].
  assert (Hp : possibleActions ts s1 = possibleActions ts s2)
    by (apply possibleActions_ext; intros; [apply Ha | apply Ht]).
  repeat split; try assumption. unfold actionsToExecute. now rewrite Hp.
Qed.

Lemma advice_is_case_insensitive_witness :
  actionsToExecute (territories openingGame) "ATTACK the Player near Territory (2,3)"
  = actionsToExecute (territories openingGame) "attack THE player near territory (2,3)".
Proof.
  exact (proj2 (proj2 (proj2
           (advice_is_case_insensitive (territories openingGame)
              "ATTACK the Player near Territory (2,3)"
              "attack THE player near territory (2,3)" eq_refl)))).
Defined.

(** ** The fallback advice *)

Lemma evaluate_plain (ts : list Territory) (src dst : Ref) (s : string) :
  includes (toLowerCase s) (toLowerCase (getName ts dst)) = false ->
  includes (toLowerCase s) "attack" && includes (toLowerCase s) "player" = false ->
  includes (toLowerCase s) "defensive" || includes (toLowerCase s) "defend" = false ->
  includes (toLowerCase s) "reinforce" || includes (toLowerCase s) "strengthen" = false ->
  evaluateAttack ts src dst s = attackBase ts src dst
  /\ evaluateTransfer ts src dst s = transferBase ts src dst.
Proof.
  intros H1 H2 H3 H4. unfold evaluateAttack, evaluateTransfer, attackBase, transferBase.
  cbv zeta. rewrite H1, H2, H3, H4. split; reflexivity.
Qed.

Lemma getName_of_identities (ts ts' : list Territory) (r : Ref) :
  identities ts = identities ts' -> getName ts r = getName ts' r.
Proof.
  unfold identities, getName. intros H.
  apply (f_equal (fun l => l !! r)) in H. rewrite !list_lookup_fmap in H.
  destruct (ts !! r) as [t |], (ts' !! r) as [t' |]; cbn in H; try discriminate;
    [| reflexivity].
  now injection H as Hn _ _.
Qed.

Lemma board_names_unmatched (s : string) (ts : list Territory) (dst : Ref) :
  Forall (fun t => includes (toLowerCase s) (toLowerCase (name t)) = false)
    createGameBoard ->
  identities ts = identities createGameBoard ->
  (dst < length ts)%nat ->
  includes (toLowerCase s) (toLowerCase (getName ts dst)) = false.
Proof.
  intros Hall Hid Hdst. rewrite (getName_of_identities ts createGameBoard dst Hid).
  assert (Hlen : length ts = length createGameBoard).
  { apply (f_equal length) in Hid. unfold identities in Hid.
    now rewrite !length_map in Hid. }
  rewrite Hlen in Hdst. apply lookup_lt_is_Some_2 in Hdst. destruct Hdst as [t Ht].
  unfold getName. rewrite Ht. cbn.
  rewrite Forall_lookup in Hall. exact (Hall dst t Ht).
Qed.

Lemma plain_on_board (s : string) (ts : list Territory) :
  Forall (fun t => includes (toLowerCase s) (toLowerCase (name t)) = false)
    createGameBoard ->
  includes (toLowerCase s) "attack" && includes (toLowerCase s) "player" = false ->
  includes (toLowerCase s) "defensive" || includes (toLowerCase s) "defend" = false ->
  includes (toLowerCase s) "reinforce" || includes (toLowerCase s) "strengthen" = false ->
  identities ts = identities createGameBoard ->
  forall src dst, (dst < length ts)%nat ->
    evaluateAttack ts src dst s = attackBase ts src dst
    /\ evaluateTransfer ts src dst s = transferBase ts src dst.
Proof.
  intros Hall H2 H3 H4 Hid src dst Hdst. apply evaluate_plain; try assumption.
  now apply board_names_unmatched.
Qed.

Lemma unmatched_of_forallb (s : string) :
  forallb (fun t => negb (includes (toLowerCase s) (toLowerCase (name t)))) createGameBoard
  = true ->
  Forall (fun t => includes (toLowerCase s) (toLowerCase (name t)) = false) createGameBoard.
Proof.
  intros H. rewrite forallb_forall in H. apply List.Forall_forall. intros t Ht.
  specialize (H t Ht). now destruct (includes _ _).
Qed.

Lemma fallback_plain (ts : list Territory) :
  identities ts = identities createGameBoard ->
  forall src dst, (dst < length ts)%nat ->
    evaluateAttack ts src dst fallbackStrategy = attackBase ts src dst
    /\ evaluateTransfer ts src dst fallbackStrategy = transferBase ts src dst.
Proof.
  apply (plain_on_board fallbackStrategy);
    [apply unmatched_of_forallb; vm_compute; reflexivity | vm_compute; reflexivity ..].
Qed.

Lemma no_advice_plain (ts : list Territory) :
  identities ts = identities createGameBoard ->
  forall src dst, (dst < length ts)%nat ->
    evaluateAttack ts src dst EmptyString = attackBase ts src dst
    /\ evaluateTransfer ts src dst EmptyString = transferBase ts src dst.
Proof.
  apply (plain_on_board EmptyString);
    [apply unmatched_of_forallb; vm_compute; reflexivity | vm_compute; reflexivity ..].
Qed.

(** X21. The fallback advice is neutral. When the request to the advisor
    fails or its answer has an unexpected format, [getAIStrategy] returns a
    fixed text; on a board with the names of [createGameBoard] this text
    changes no confidence: the candidates, their ranking and the actions to
    execute are those obtained with no advice at all. *)
Theorem fallback_advice_is_neutral (ts : list Territory) (reply : AdvisorReply) :
  identities ts = identities createGameBoard ->
  (forall content, reply <> Answer content) ->
  possibleActions ts (getAIStrategy reply) = possibleActions ts (strategyText None)
  /\ actionsToExecute ts (getAIStrategy reply) = actionsToExecute ts (strategyText None)
  /\ (forall src dst, (dst < length ts)%nat ->
        evaluateAttack ts src dst (getAIStrategy reply) = attackBase ts src dst
        /\ evaluateTransfer ts src dst (getAIStrategy reply) = transferBase ts src dst).
Proof.
  intros Hid Hreply.
  assert (E : getAIStrategy reply = fallbackStrategy).
  { destruct reply as [| | content]; [reflexivity | reflexivity |].
    now contradiction (Hreply content). }
  rewrite E. cbn [strategyText].
  assert (Hp : possibleActions ts fallbackStrategy = possibleActions ts EmptyString).
  { apply possibleActions_ext; intros src dst Hdst.
    - rewrite (proj1 (fallback_plain ts Hid src dst Hdst)).
      now rewrite (proj1 (no_advice_plain ts Hid src dst Hdst)).
    - rewrite (proj2 (fallback_plain ts Hid src dst Hdst)).
      now rewrite (proj2 (no_advice_plain ts Hid src dst Hdst)). }
  split; [exact Hp |]. split; [unfold actionsToExecute; now rewrite Hp |].
  now apply fallback_plain.
Qed.

Lemma fallback_advice_is_neutral_witness :
  actionsToExecute (territories openingGame) (getAIStrategy RequestFailed)
  = actionsToExecute (territories openingGame) (strategyText None).
Proof.
  apply (fallback_advice_is_neutral (territories openingGame) RequestFailed).
  - reflexivity.
  - intros content. discriminate.
Defined.

(** * Reinforcements *)

Lemma reinforce_cons (o : Owner) (t : Territory) (ts : list Territory) :
  reinforce o (t :: ts)
  = (if Owner_eqb (owner t) o then setUnits (units t + 1) t else t) :: reinforce o ts.
Proof. reflexivity. Qed.

(** X22. The end-of-turn reinforcement is worth one unit per territory
    held: on a board without negative unit counts, [reinforce] raises the
    units of the side by its number of territories, leaves the units of the
    other owners as they are, and changes no territory count. *)
Theorem reinforcement_is_one_unit_per_territory (o : Owner) (ts : list Territory) :
  unitsNonNegative ts ->
  unitsOf o (reinforce o ts) = unitsOf o ts + territoryCount o ts
  /\ (forall o', o' <> o -> unitsOf o' (reinforce o ts) = unitsOf o' ts)
  /\ (forall o', territoryCount o' (reinforce o ts) = territoryCount o' ts).
Proof.
  unfold unitsNonNegative, unitsOf, territoryCount.
  induction 1 as [| t ts Ht Hts IH]; [repeat split |].
  destruct IH as (IH1 & IH2 & IH3). rewrite reinforce_cons.
  split; [| split].
  - cbn [List.filter]. destruct (Owner_eqb (owner t) o) eqn:E.
    + cbn [owner setUnits]. rewrite E. cbn [map fold_right length units].
      rewrite IH1. change (units (setUnits (units t + 1) t)) with (Z.max 0 (units t + 1)).
      lia.
    + rewrite E. exact IH1.
  - intros o' Hne. specialize (IH2 o' Hne). cbn [List.filter].
    destruct (Owner_eqb (owner t) o) eqn:E.
    + cbn [owner setUnits]. apply Owner_eqb_eq in E.
      destruct (Owner_eqb (owner t) o') eqn:E'.
      * apply Owner_eqb_eq in E'. congruence.
      * exact IH2.
    + destruct (Owner_eqb (owner t) o'); cbn [map fold_right]; now rewrite ?IH2.
  - intros o'. specialize (IH3 o'). cbn [List.filter].
    destruct (Owner_eqb (owner t) o); cbn [owner setUnits];
      destruct (Owner_eqb (owner t) o'); cbn [length]; lia.
Qed.

Lemma reinforcement_is_one_unit_per_territory_witness :
  unitsOf player (reinforce player (territories openingGame))
  = unitsOf player (territories openingGame)
    + territoryCount player (territories openingGame).
Proof.
  exact (proj1 (reinforcement_is_one_unit_per_territory player (territories openingGame)
                  nonneg_openingGame)).
Defined.

(** * The candidates of the automated side *)

Lemma ownedBy_spec (o : Owner) (ts : list Territory) (r : Ref) :
  In r (ownedBy o ts) <-> (r < length ts)%nat /\ getOwner ts r = o.
Proof.
  unfold ownedBy, allRefs. rewrite filter_In, in_seq. split.
  - intros [Hr E]. apply Owner_eqb_eq in E. split; [lia | exact E].
  - intros [Hr E]. split; [lia |]. rewrite E. now destruct o.
Qed.

(** X23. The candidates of the automated side are exactly the moves
    from one of its territories holding more than one unit to another
    territory of the board within the adjacency distance: a transfer when
    the target is its own, an attack otherwise, rated by [evaluateTransfer]
    or [evaluateAttack] on the board as it stands. *)
Theorem candidates_of_the_automated_side
  (ts : list Territory) (aiStrategy : string) (a : AIAction) :
  In a (possibleActions ts aiStrategy)
  <-> getOwner ts (from a) = ai
      /\ 1 < getUnits ts (from a)
      /\ (to a < length ts)%nat
      /\ to a <> from a
      /\ within7 (getPosition ts (from a)) (getPosition ts (to a)) = true
      /\ type a = (if Owner_eqb (getOwner ts (to a)) ai then transfer else attack)
      /\ confidence a = evaluate ts aiStrategy a.
Proof.
  unfold possibleActions. rewrite in_flat_map. split.
  - intros (src & Hsrc & Ha). apply ownedBy_spec in Hsrc. destruct Hsrc as [_ Hown].
    unfold actionsFrom in Ha.
    destruct (Z.leb_spec (getUnits ts src) 1) as [| Hu]; [destruct Ha |].
    apply in_map_iff in Ha. destruct Ha as (dst & <- & Hdst).
    apply findAdjacentTerritories_spec in Hdst. destruct Hdst as (Hlt & Hne & Hnear).
    unfold evaluate.
    destruct (Owner_eqb (getOwner ts dst) ai) eqn:E; cbn [from to type confidence];
      rewrite ?E; repeat split; assumption.
  - intros (Hown & Hu & Hlt & Hne & Hnear & Hty & Hc).
    exists (from a). split.
    + apply ownedBy_spec. split; [| exact Hown].
      unfold getOwner in Hown. apply lookup_lt_is_Some.
      destruct (ts !! from a); [eauto | discriminate].
    + unfold actionsFrom.
      destruct (Z.leb_spec (getUnits ts (from a)) 1) as [| _]; [lia |].
      apply in_map_iff. exists (to a). split.
      * destruct a as [ty src dst c]. cbn [from to type confidence] in *.
        unfold evaluate in Hc. cbn [from to type] in Hc.
        destruct (Owner_eqb (getOwner ts dst) ai); subst ty; now subst c.
      * apply findAdjacentTerritories_spec. repeat split; assumption.
Qed.

(** * What the click handler does not look at *)

Section Flags.

Variable random : nat -> Q.
Variables started over : bool.

Lemma transferUnits_withFlags (src dst : Ref) (g : Game) :
  transferUnits src dst (withFlags started over g)
  = withFlags started over (transferUnits src dst g).
Proof.
  unfold transferUnits, withFlags. cbn [territories setGameState].
  destruct (0 <? _); reflexivity.
Qed.

Lemma attackTerritory_withFlags (att def : Ref) (g : Game) :
  attackTerritory random att def (withFlags started over g)
  = withFlags started over (attackTerritory random att def g).
Proof.
  unfold attackTerritory, withFlags. cbn [territories randomCalls setGameState].
  destruct (_ <=? 1); [reflexivity |]. destruct (_ <? _); reflexivity.
Qed.

Lemma updateGameState_withFlags (g : Game) :
  territories (updateGameState (withFlags started over g)) = territories g
  /\ selectedTerritory (updateGameState (withFlags started over g)) = selectedTerritory g
  /\ randomCalls (updateGameState (withFlags started over g)) = randomCalls g
  /\ currentTurn (gameState (updateGameState (withFlags started over g)))
     = currentTurn (gameState g).
Proof.
  rewrite updateGameState_territories.
  destruct (updateGameState_frame (withFlags started over g)) as (-> & -> & _ & ->).
  repeat split.
Qed.

End Flags.

(** X24. The click handler looks at neither the started flag nor the
    game-over flag: whatever their values, a click has the same effect on
    the board, on the selection, on the draws consumed and on the turn. *)
Theorem click_ignores_the_flags
  (random : nat -> Q) (c : Ref) (started over : bool) (g : Game) :
  let flagged := handleTerritoryClick random c (withFlags started over g) in
  let plain := handleTerritoryClick random c g in
  territories flagged = territories plain
  /\ selectedTerritory flagged = selectedTerritory plain
  /\ randomCalls flagged = randomCalls plain
  /\ currentTurn (gameState flagged) = currentTurn (gameState plain).
Proof.
  cbv zeta. unfold handleTerritoryClick.
  change (currentTurn (gameState (withFlags started over g)))
    with (currentTurn (gameState g)).
  change (selectedTerritory (withFlags started over g)) with (selectedTerritory g).
  change (territories (withFlags started over g)) with (territories g).
  destruct (currentTurn (gameState g)) eqn:Eturn; [| repeat split; exact Eturn].
  destruct (selectedTerritory g) as [sel |] eqn:Esel.
  - destruct (Nat.eqb sel c); [repeat split; exact Eturn |].
    destruct (isAdjacent (territories g) sel c); [| repeat split; auto].
    match goal with
    | |- context [updateGameState (setSelection None (onTerritory sel (setSelected false) ?x))] =>
      assert (E : exists y,
                 x = withFlags started over y
                 /\ y = (if Owner_eqb (getOwner (territories g) c) player
                         then transferUnits sel c g
                         else attackTerritory random sel c g))
    end.
    { destruct (Owner_eqb _ _); eexists; split;
        [apply transferUnits_withFlags | reflexivity
         | apply attackTerritory_withFlags | reflexivity]. }
    destruct E as (y & -> & Ey). rewrite <- Ey.
    change (setSelection None (onTerritory sel (setSelected false) (withFlags started over y)))
      with (withFlags started over
              (setSelection None (onTerritory sel (setSelected false) y))).
    destruct (updateGameState_withFlags started over
                (setSelection None (onTerritory sel (setSelected false) y)))
      as (-> & -> & -> & ->).
    rewrite updateGameState_territories.
    destruct (updateGameState_frame
                (setSelection None (onTerritory sel (setSelected false) y)))
      as (-> & -> & _ & ->).
    repeat split.
  - destruct (Owner_eqb _ _); repeat split; auto.
Qed.

(** * The automated side moves its own units *)

Lemma actionsToExecute_candidates (ts : list Territory) (aiStrategy : string) (a : AIAction) :
  In a (actionsToExecute ts aiStrategy) -> In a (possibleActions ts aiStrategy).
Proof.
  unfold actionsToExecute. intros H.
  apply (Permutation_in a (sortActions_perm (possibleActions ts aiStrategy))).
  rewrite <- (take_drop 3 (sortActions (possibleActions ts aiStrategy))).
  apply in_or_app. now left.
Qed.

(** X25. The automated side only moves its own units: each action it
    executes starts from a territory that is its own at the moment the
    action is executed, whatever the actions executed before it in the same
    turn did. *)
Theorem automated_side_moves_its_own_units
  (random : nat -> Q) (advice : option string) (g : Game) (n : nat) (a : AIAction) :
  let actions := actionsToExecute (territories g) (strategyText advice) in
  actions !! n = Some a ->
  getOwner (territories (executeActions random (take n actions)
                           (announceStrategy advice g))) (from a) = ai.
Proof.
  cbv zeta. intros Hn.
  assert (Hin : In a (possibleActions (territories g) (strategyText advice))).
  { apply actionsToExecute_candidates. apply list_elem_of_In.
    eapply list_elem_of_lookup_2. exact Hn. }
  apply possibleActions_evaluated in Hin. destruct Hin as (_ & _ & Hown & _).
  destruct (drift_lookup ai _ _ (from a)
              (drift_executeActions random
                 (take n (actionsToExecute (territories g) (strategyText advice)))
                 (announceStrategy advice g))) as [E | E]; [| exact E].
  rewrite E, announceStrategy_territories. exact Hown.
Qed.

Lemma automated_side_moves_its_own_units_witness :
  getOwner (territories (executeActions zeroDraws (take 1 openingActions)
                           (announceStrategy None openingGame)))
    (from (mkAIAction attack 16 15 (20 # 10))) = ai.
Proof.
  apply (automated_side_moves_its_own_units zeroDraws None openingGame 1).
  vm_compute. reflexivity.
Defined.
